(** * MY-AI-BOT: conversation store, history assembly and request handlers

    A shallow embedding of [server/storage.ts] (class [MemStorage]),
    [server/services/gemini.ts] and [server/routes.ts], followed by the
    properties of the session-scoped store and of the three request
    protocols.

    Conventions.
    - A JavaScript string is a [string]; its [.length] is [String.length].
    - A [Date] is the integer number of milliseconds returned by [getTime()].
    - [string | null | undefined] is [option string].
    - The platform (UUID generator, system clock, hosted model, multer's file
      naming, base64 codec, working directory) is a record [Env] of oracles;
      the mutable part of the process is a record [World]. *)

From Stdlib Require Import String Ascii List ZArith Lia Bool Arith.
From Stdlib Require Import Sorting.Sorted Sorting.Permutation.
From Stdlib Require Import DecimalString DecimalZ.
Import ListNotations.
Local Open Scope list_scope.
Local Open Scope string_scope.

(* ===================================================================== *)
(** ** JavaScript helpers *)
(* ===================================================================== *)

(** [x || d] on a [string | null | undefined]: the empty string is falsy. *)
Definition truthy (o : option string) : bool :=
  match o with
  | Some s => negb (s =? EmptyString)
  | None => false
  end.

Definition js_or (o : option string) (d : string) : string :=
  match o with
  | Some s => if s =? EmptyString then d else s
  | None => d
  end.

(** [x || null] *)
Definition js_or_null (o : option string) : option string :=
  if truthy o then o else None.

(** [Array.prototype.sort(cmp)]: a stable sort (ECMAScript 2019); an element
    [a] is placed before [b] when [cmp a b < 0], and elements that compare
    equal keep their relative order. *)
Section JsSort.
Context {A : Type} (cmp : A -> A -> Z).

Fixpoint sort_insert (x : A) (l : list A) : list A :=
  match l with
  | [] => [x]
  | y :: r => if (cmp x y <=? 0)%Z then x :: y :: r else y :: sort_insert x r
  end.

Fixpoint js_sort (l : list A) : list A :=
  match l with
  | [] => []
  | x :: r => sort_insert x (js_sort r)
  end.
End JsSort.

(** A JavaScript [Map<string, V>]: entries in insertion order, keys unique. *)
Module JsMap.
Definition t (V : Type) : Type := list (string * V).

Definition empty {V} : t V := [].

(** [m.set(k, v)]: an existing key keeps its position and takes the new
    value; a new key is appended. *)
Fixpoint set {V} (k : string) (v : V) (m : t V) : t V :=
  match m with
  | [] => [(k, v)]
  | (k', v') :: r => if k' =? k then (k', v) :: r else (k', v') :: set k v r
  end.

Fixpoint get {V} (k : string) (m : t V) : option V :=
  match m with
  | [] => None
  | (k', v') :: r => if k' =? k then Some v' else get k r
  end.

(** [m.delete(k)] *)
Definition delete {V} (k : string) (m : t V) : t V :=
  filter (fun e => negb (fst e =? k)) m.

Definition keys {V} (m : t V) : list string := map fst m.
Definition values {V} (m : t V) : list V := map snd m.
Definition entries {V} (m : t V) : list (string * V) := m.
Definition size {V} (m : t V) : nat := length m.

Definition has {V} (k : string) (m : t V) : bool :=
  existsb (fun k' => k' =? k) (keys m).

(** The representation invariant of a [Map]: no key occurs twice. *)
Definition wf {V} (m : t V) : Prop := NoDup (keys m).

Fixpoint distinct (ks : list string) : bool :=
  match ks with
  | [] => true
  | k :: r => negb (existsb (fun k' => k' =? k) r) && distinct r
  end.

(** The invariant, as a test. *)
Definition wfb {V} (m : t V) : bool := distinct (keys m).
End JsMap.

(* ===================================================================== *)
(** ** shared/schema.ts *)
(* ===================================================================== *)

(** [Message = typeof messages.$inferSelect] *)
Record Message : Type := mkMessage {
  id : string;
  content : string;
  role : string;                  (* 'user' or 'assistant' *)
  sessionId : string;
  timestamp : Z;
  imageUrl : option string;
  messageType : option string     (* 'text', 'image', 'image_generation' *)
}.

(** [InsertMessage = z.infer<typeof insertMessageSchema>] *)
Record InsertMessage : Type := mkInsert {
  ins_content : string;
  ins_role : string;
  ins_sessionId : string;
  ins_imageUrl : option string;
  ins_messageType : option string
}.

(* ===================================================================== *)
(** ** server/storage.ts: the pure part of [MemStorage] *)
(* ===================================================================== *)

Module MemStorage.
(** [private messages: Map<string, Message>] *)
Definition t : Type := JsMap.t Message.

(** The record built by [createMessage] from the drawn id and the clock. *)
Definition newMessage (uuid : string) (now : Z) (insertMessage : InsertMessage)
  : Message :=
  {| id := uuid;
     content := ins_content insertMessage;
     role := ins_role insertMessage;
     sessionId := ins_sessionId insertMessage;
     timestamp := now;
     imageUrl := js_or_null (ins_imageUrl insertMessage);
     messageType := Some (js_or (ins_messageType insertMessage) "text") |}.

Definition bySession (sid : string) (message : Message) : bool :=
  sessionId message =? sid.

Definition byTimestamp (a b : Message) : Z :=
  (timestamp a - timestamp b)%Z.

Definition getMessagesBySessionId (sid : string) (messages : t) : list Message :=
  js_sort byTimestamp (filter (bySession sid) (JsMap.values messages)).

Definition messagesToDelete (sid : string) (messages : t) : list string :=
  map fst (filter (fun e => bySession sid (snd e)) (JsMap.entries messages)).

(** [messagesToDelete.forEach(id => this.messages.delete(id))] *)
Definition clearMessagesBySessionId (sid : string) (messages : t) : t :=
  fold_left (fun m k => JsMap.delete k m) (messagesToDelete sid messages) messages.
End MemStorage.

(* ===================================================================== *)
(** ** Node's [path] module (POSIX flavour) *)
(* ===================================================================== *)

Module Path.
Definition sep : ascii := "/"%char.

(** [s.split("/")] *)
Fixpoint split (s : string) : list string :=
  match s with
  | EmptyString => [EmptyString]
  | String c r =>
      if Ascii.eqb c sep then EmptyString :: split r
      else match split r with
           | h :: t => String c h :: t
           | [] => [String c EmptyString]
           end
  end.

(** One step of [normalizeString]; the stack holds the kept segments, the
    last one first. *)
Definition step (allowAboveRoot : bool) (stack : list string) (seg : string)
  : list string :=
  if (seg =? EmptyString) || (seg =? ".") then stack
  else if seg =? ".." then
    match stack with
    | top :: rest =>
        if top =? ".." then (if allowAboveRoot then ".." :: stack else stack)
        else rest
    | [] => if allowAboveRoot then [".."] else []
    end
  else seg :: stack.

Definition normalizeSegments (allowAboveRoot : bool) (p : string) : list string :=
  rev (fold_left (step allowAboveRoot) (split p) []).

Definition normalizeString (allowAboveRoot : bool) (p : string) : string :=
  String.concat "/" (normalizeSegments allowAboveRoot p).

Definition isAbsolute (p : string) : bool :=
  match p with
  | String c _ => Ascii.eqb c sep
  | EmptyString => false
  end.

Fixpoint endsWithSep (p : string) : bool :=
  match p with
  | EmptyString => false
  | String c EmptyString => Ascii.eqb c sep
  | String _ r => endsWithSep r
  end.

Definition normalize (p : string) : string :=
  if p =? EmptyString then "."
  else
    let abs := isAbsolute p in
    let trailing := endsWithSep p in
    let q := normalizeString (negb abs) p in
    if q =? EmptyString then
      (if abs then "/" else if trailing then "./" else ".")
    else
      let q' := if trailing then q ++ "/" else q in
      if abs then "/" ++ q' else q'.

(** [path.join(a, b)] *)
Definition join (a b : string) : string :=
  match (a =? EmptyString), (b =? EmptyString) with
  | true, true => "."
  | true, false => normalize b
  | false, true => normalize a
  | false, false => normalize (a ++ "/" ++ b)
  end.

(** The segments of [path.resolve(p)] in a process whose working directory
    is the absolute path [cwd]. *)
Definition resolveSegments (cwd p : string) : list string :=
  if isAbsolute p then normalizeSegments false p
  else if p =? EmptyString then normalizeSegments false cwd
  else normalizeSegments false (cwd ++ "/" ++ p).

(** [path.resolve(p)] *)
Definition resolve (cwd p : string) : string :=
  "/" ++ String.concat "/" (resolveSegments cwd p).

Fixpoint isPrefix (d l : list string) : bool :=
  match d, l with
  | [], _ => true
  | x :: d', y :: l' => (x =? y) && isPrefix d' l'
  | _ :: _, [] => false
  end.

(** The file that [p] names lies in the directory that [dir] names (or is
    that directory). *)
Definition within (cwd dir p : string) : bool :=
  isPrefix (resolveSegments cwd dir) (resolveSegments cwd p).
End Path.

(* ===================================================================== *)
(** ** The platform and the state of the process *)
(* ===================================================================== *)

(** A thrown value: an [Error] with its message, or a [ZodError] with its
    issues. *)
Inductive Exn : Type :=
| JsError (message : string)
| ZodError (issues : list string).

(** [error.message]; a [ZodError]'s message is the rendering of its issues. *)
Definition exn_message (e : Exn) : string :=
  match e with
  | JsError m => m
  | ZodError issues => String.concat "; " issues
  end.

(** Content parts sent to the hosted model. *)
Inductive Part : Type :=
| TextPart (text : string)
| InlineDataPart (data : string) (mimeType : string).

Record Content : Type := mkContent {
  c_role : string;
  c_parts : list Part
}.

Inductive Contents : Type :=
| ContentsString (s : string)          (* contents: message *)
| ContentsTurns (l : list Content)     (* contents: [{ role, parts }, ...] *)
| ContentsParts (l : list Part).       (* contents: [{ inlineData }, prompt] *)

Record ApiRequest : Type := mkRequest {
  rq_model : string;
  rq_contents : Contents;
  rq_responseModalities : list string
}.

Record InlineData : Type := mkInline {
  in_data : option string
}.

Record ResponsePart : Type := mkRPart {
  rp_inlineData : option InlineData
}.

Record Candidate : Type := mkCandidate {
  cand_content : option (option (list ResponsePart))  (* content, content.parts *)
}.

Record ApiResponse : Type := mkResponse {
  rs_text : option string;
  rs_candidates : option (list Candidate)
}.

Inductive ApiOutcome : Type :=
| ApiResolves (r : ApiResponse)
| ApiRejects (e : Exn).

Inductive FsNode : Type :=
| Absent
| File (bytes : string)
| Directory.

Record Env : Type := mkEnv {
  randomUUID : nat -> string;                    (* the n-th UUID drawn *)
  systemClock : nat -> Z;                        (* the n-th clock reading, in ms *)
  hostedModel : nat -> ApiRequest -> ApiOutcome; (* the n-th call of the model *)
  multerFilename : nat -> string;                (* the n-th name multer picks *)
  base64Encode : string -> string;               (* buffer.toString("base64") *)
  base64Decode : string -> string;               (* Buffer.from(s, "base64") *)
  cwd : string                                   (* process.cwd(), absolute *)
}.

Record World : Type := mkWorld {
  messages : MemStorage.t;       (* storage.messages *)
  fs : string -> FsNode;         (* the disk, by resolved absolute path *)
  uuidDraws : nat;
  clockReads : nat;
  uploadsTaken : nat;
  apiLog : list ApiRequest       (* the requests sent to the model, oldest first *)
}.

Definition with_messages (f : MemStorage.t -> MemStorage.t) (w : World) : World :=
  mkWorld (f (messages w)) (fs w) (uuidDraws w) (clockReads w) (uploadsTaken w) (apiLog w).

Definition with_fs (f : (string -> FsNode) -> string -> FsNode) (w : World) : World :=
  mkWorld (messages w) (f (fs w)) (uuidDraws w) (clockReads w) (uploadsTaken w) (apiLog w).

Definition fs_update (p : string) (n : FsNode) (d : string -> FsNode) : string -> FsNode :=
  fun q => if q =? p then n else d q.

(* ===================================================================== *)
(** ** Computations: state that survives a throw *)
(* ===================================================================== *)

Inductive Result (A : Type) : Type :=
| Ok (a : A)
| Throw (e : Exn).
Arguments Ok {A} a.
Arguments Throw {A} e.

Definition M (A : Type) : Type := World -> Result A * World.

Definition ret {A} (a : A) : M A := fun w => (Ok a, w).

Definition bind {A B} (c : M A) (k : A -> M B) : M B :=
  fun w => match c w with
           | (Ok a, w') => k a w'
           | (Throw e, w') => (Throw e, w')
           end.

Definition throw {A} (e : Exn) : M A := fun w => (Throw e, w).

(** [try { c } catch (error) { h error }] *)
Definition try_catch {A} (c : M A) (h : Exn -> M A) : M A :=
  fun w => match c w with
           | (Ok a, w') => (Ok a, w')
           | (Throw e, w') => h e w'
           end.

Declare Scope js_scope.
Delimit Scope js_scope with js.
Notation "x <- c ;; k" := (bind c (fun x => k))
  (at level 61, c at next level, right associativity) : js_scope.
Notation "' pat <- c ;; k" := (bind c (fun x => match x with pat => k end))
  (at level 61, pat pattern, c at next level, right associativity) : js_scope.
Notation "c ;;; k" := (bind c (fun _ => k))
  (at level 61, right associativity) : js_scope.
Local Open Scope js_scope.

Fixpoint mapM {A B} (f : A -> M B) (l : list A) : M (list B) :=
  match l with
  | [] => ret []
  | x :: r => y <- f x ;; ys <- mapM f r ;; ret (y :: ys)
  end.

(** The one-character string holding a double quote. *)
Definition dquote : string := String (ascii_of_nat 34) EmptyString.

(** [`${n}`] for an integer [n]. *)
Definition string_of_Z (z : Z) : string :=
  NilZero.string_of_int (Z.to_int z).

(* ===================================================================== *)
(** ** Requests and responses *)
(* ===================================================================== *)

Inductive JsValue : Type :=
| JUndefined
| JNull
| JBoolean (b : bool)
| JNumber (n : Z)
| JString (s : string)
| JObject.

(** A parsed JSON body: property lookup. *)
Definition Body : Type := string -> JsValue.

Record UploadedPart : Type := mkPart {
  mimetype : string;
  filebytes : string
}.

(** A multipart request: the part named [image], and the text fields. *)
Record UploadRequest : Type := mkUpload {
  up_image : option UploadedPart;
  up_fields : string -> option string
}.

Inductive Response : Type :=
| ResPair (userMessage assistantMessage : Message)  (* res.json({ userMessage, assistantMessage }) *)
| ResMessages (l : list Message)                    (* res.json(messages) *)
| ResStatus (status : nat) (message : string)       (* res.status(n).json({ message }) *)
| ResOkMessage (message : string)                   (* res.json({ message }) *)
| ResSendFile (path : string)                       (* res.sendFile(path) *)
| ResUnhandled (e : Exn).                           (* next(err): Express' own error page *)

(** [z.string().min(lo).max(hi)] on one property; the issues found, or the
    string. *)
Definition zString (name : string) (lo : nat) (hi : option nat) (v : JsValue)
  : list string + string :=
  match v with
  | JString s =>
      let tooShort := if Nat.ltb (String.length s) lo then [name ++ ": too_small"] else [] in
      let tooLong := match hi with
                     | Some h => if Nat.ltb h (String.length s) then [name ++ ": too_big"] else []
                     | None => []
                     end in
      match (tooShort ++ tooLong)%list with
      | [] => inr s
      | issues => inl issues
      end
  | _ => inl [name ++ ": invalid_type"]
  end.

(** [z.object({ a: ..., sessionId: z.string().min(1) }).parse(body)] *)
Definition zParse2 (name : string) (hi : nat) (body : Body) : M (string * string) :=
  match zString name 1 (Some hi) (body name),
        zString "sessionId" 1 None (body "sessionId") with
  | inr a, inr s => ret (a, s)
  | inl i, inr _ => throw (ZodError i)
  | inr _, inl j => throw (ZodError j)
  | inl i, inl j => throw (ZodError (i ++ j)%list)
  end.

Definition chatRequestSchema_parse : Body -> M (string * string) :=
  zParse2 "message" 2000.

Definition imageGenerationSchema_parse : Body -> M (string * string) :=
  zParse2 "prompt" 1000.

Definition allowedTypes : list string :=
  ["image/jpeg"; "image/jpg"; "image/png"; "image/gif"; "image/webp"].

Definition includes (l : list string) (s : string) : bool :=
  existsb (fun x => x =? s) l.

Definition fileSizeLimit : Z := 10 * 1024 * 1024.

(** A turn of [conversationHistory]. *)
Record Turn : Type := mkTurn {
  t_role : string;
  t_content : string;
  t_imageUrl : option string
}.

Definition fallbackReply : string :=
  "I apologize, but I couldn't generate a response. Please try again.".

Definition fallbackAnalysis : string :=
  "I couldn't analyze this image. Please try again.".

Definition defaultAnalysisPrompt : string :=
  "Analyze this image in detail and describe its key elements, context, and any notable aspects.".

Definition defaultUploadText : string :=
  "I've uploaded an image for you to analyze.".

Section Server.
Variable E : Env.

(* ------------------------------------------------------------------- *)
(** *** Platform calls *)

(** [randomUUID()] *)
Definition draw_uuid : M string :=
  fun w => (Ok (randomUUID E (uuidDraws w)),
            mkWorld (messages w) (fs w) (S (uuidDraws w)) (clockReads w)
                    (uploadsTaken w) (apiLog w)).

(** [Date.now()], [new Date()] *)
Definition date_now : M Z :=
  fun w => (Ok (systemClock E (clockReads w)),
            mkWorld (messages w) (fs w) (uuidDraws w) (S (clockReads w))
                    (uploadsTaken w) (apiLog w)).

Definition multer_name : M string :=
  fun w => (Ok (multerFilename E (uploadsTaken w)),
            mkWorld (messages w) (fs w) (uuidDraws w) (clockReads w)
                    (S (uploadsTaken w)) (apiLog w)).

(** [await ai.models.generateContent(request)] *)
Definition generateContent (request : ApiRequest) : M ApiResponse :=
  fun w =>
    let w' := mkWorld (messages w) (fs w) (uuidDraws w) (clockReads w)
                      (uploadsTaken w) (apiLog w ++ [request])%list in
    match hostedModel E (length (apiLog w)) request with
    | ApiResolves r => (Ok r, w')
    | ApiRejects e => (Throw e, w')
    end.

Definition node_at (w : World) (p : string) : FsNode :=
  fs w (Path.resolve (cwd E) p).

(** [fs.existsSync(p)] *)
Definition existsSync (p : string) : M bool :=
  fun w => (Ok (match node_at w p with Absent => false | _ => true end), w).

(** [fs.readFileSync(p)] *)
Definition readFileSync (p : string) : M string :=
  fun w => match node_at w p with
           | File bytes => (Ok bytes, w)
           | Absent => (Throw (JsError "ENOENT: no such file or directory"), w)
           | Directory => (Throw (JsError "EISDIR: illegal operation on a directory"), w)
           end.

(** [fs.writeFileSync(p, bytes)] *)
Definition writeFileSync (p : string) (bytes : string) : M unit :=
  fun w => match node_at w p with
           | Directory => (Throw (JsError "EISDIR: illegal operation on a directory"), w)
           | _ => (Ok tt, with_fs (fs_update (Path.resolve (cwd E) p) (File bytes)) w)
           end.

(* ------------------------------------------------------------------- *)
(** *** server/storage.ts *)

Definition createMessage (insertMessage : InsertMessage) : M Message :=
  uuid <- draw_uuid ;;
  now <- date_now ;;
  let message := MemStorage.newMessage uuid now insertMessage in
  fun w => (Ok message, with_messages (JsMap.set uuid message) w).

Definition getMessagesBySessionId (sid : string) : M (list Message) :=
  fun w => (Ok (MemStorage.getMessagesBySessionId sid (messages w)), w).

Definition clearMessagesBySessionId (sid : string) : M unit :=
  fun w => (Ok tt, with_messages (MemStorage.clearMessagesBySessionId sid) w).

(* ------------------------------------------------------------------- *)
(** *** server/services/gemini.ts *)

(** The body of [messages.map(msg => ...)] in
    [generateChatResponseWithHistory]. *)
Definition formatMessage (msg : Turn) : M Content :=
  let parts := [TextPart (t_content msg)] in
  let role' := if t_role msg =? "assistant" then "model" else "user" in
  match t_imageUrl msg with
  | Some url =>
      if negb (url =? EmptyString) then
        present <- existsSync url ;;
        if present then
          imageBytes <- readFileSync url ;;
          ret (mkContent role'
                 (parts ++ [InlineDataPart (base64Encode E imageBytes) "image/jpeg"])%list)
        else ret (mkContent role' parts)
      else ret (mkContent role' parts)
  | None => ret (mkContent role' parts)
  end.

Definition formatMessages (msgs : list Turn) : M (list Content) :=
  mapM formatMessage msgs.

Definition generateChatResponseWithHistory (msgs : list Turn) : M string :=
  try_catch
    (formattedMessages <- formatMessages msgs ;;
     response <- generateContent
                   (mkRequest "gemini-2.5-flash" (ContentsTurns formattedMessages) []) ;;
     ret (js_or (rs_text response) fallbackReply))
    (fun _ => throw (JsError "Failed to generate response from Gemini API")).

Definition analyzeImage (imagePath : string) (prompt : option string) : M string :=
  try_catch
    (imageBytes <- readFileSync imagePath ;;
     let contents :=
       [InlineDataPart (base64Encode E imageBytes) "image/jpeg";
        TextPart (js_or prompt defaultAnalysisPrompt)] in
     response <- generateContent
                   (mkRequest "gemini-2.5-flash" (ContentsParts contents) []) ;;
     ret (js_or (rs_text response) fallbackAnalysis))
    (fun _ => throw (JsError "Failed to analyze image")).

(** The [for (const part of content.parts)] loop of [generateImage]: the
    data of the first part that carries some. *)
Fixpoint firstInlineData (parts : list ResponsePart) : option string :=
  match parts with
  | [] => None
  | part :: rest =>
      match rp_inlineData part with
      | Some d => if truthy (in_data d) then in_data d else firstInlineData rest
      | None => firstInlineData rest
      end
  end.

Definition generateImage (prompt outputPath : string) : M unit :=
  try_catch
    (response <- generateContent
                   (mkRequest "gemini-2.0-flash-preview-image-generation"
                      (ContentsTurns [mkContent "user" [TextPart prompt]])
                      ["TEXT"; "IMAGE"]) ;;
     match rs_candidates response with
     | None | Some [] => throw (JsError "No image generated")
     | Some (first :: _) =>
         match cand_content first with
         | None | Some None => throw (JsError "No image content generated")
         | Some (Some parts) =>
             match firstInlineData parts with
             | Some data => writeFileSync outputPath (base64Decode E data)
             | None => throw (JsError "No image data found in response")
             end
         end
     end)
    (fun _ => throw (JsError "Failed to generate image")).

(* ------------------------------------------------------------------- *)
(** *** server/routes.ts *)

(** What the client gets and the state the process is left in. *)
Definition Handler : Type := World -> Response * World.

(** A route whose callback may let an error through to Express. *)
Definition route (c : M Response) : Handler :=
  fun w => match c w with
           | (Ok r, w') => (r, w')
           | (Throw e, w') => (ResUnhandled e, w')
           end.

(** [upload.single('image')]: multer's disk storage under [uploads/]. It
    yields [req.file.path], or nothing when the request has no such part. *)
Definition upload_single (req : UploadRequest) : M (option string) :=
  match up_image req with
  | None => ret None
  | Some part =>
      if includes allowedTypes (mimetype part) then
        if (fileSizeLimit <? Z.of_nat (String.length (filebytes part)))%Z then
          throw (JsError "File too large")
        else
          name <- multer_name ;;
          let path := Path.join "uploads/" name in
          writeFileSync path (filebytes part) ;;;
          ret (Some path)
      else throw (JsError "Only image files are allowed")
  end.

Definition toTurn (msg : Message) : Turn :=
  mkTurn (role msg) (content msg) (imageUrl msg).

(** [app.post("/api/chat", ...)] *)
Definition post_chat (body : Body) : Handler :=
  route
    (try_catch
       ('(message, sid) <- chatRequestSchema_parse body ;;
        userMessage <- createMessage (mkInsert message "user" sid None None) ;;
        history <- getMessagesBySessionId sid ;;
        let conversationHistory := map toTurn history in
        responseText <- generateChatResponseWithHistory conversationHistory ;;
        assistantMessage <- createMessage (mkInsert responseText "assistant" sid None None) ;;
        ret (ResPair userMessage assistantMessage))
       (fun error => ret (ResStatus 500 (exn_message error)))).

(** [app.get("/api/chat/:sessionId", ...)] *)
Definition get_chat (sid : string) : Handler :=
  route
    (try_catch
       (msgs <- getMessagesBySessionId sid ;;
        ret (ResMessages msgs))
       (fun _ => ret (ResStatus 500 "Failed to retrieve chat history"))).

(** [app.delete("/api/chat/:sessionId", ...)] *)
Definition delete_chat (sid : string) : Handler :=
  route
    (try_catch
       (clearMessagesBySessionId sid ;;;
        ret (ResOkMessage "Chat history cleared"))
       (fun _ => ret (ResStatus 500 "Failed to clear chat history"))).

(** [app.post("/api/upload-image", upload.single('image'), ...)] *)
Definition post_upload_image (req : UploadRequest) : Handler :=
  route
    (file <- upload_single req ;;
     try_catch
       (match file with
        | None => ret (ResStatus 400 "No image file provided")
        | Some imagePath =>
            let sid := up_fields req "sessionId" in
            let message := match up_fields req "message" with
                           | Some m => m
                           | None => EmptyString
                           end in
            match sid with
            | None => ret (ResStatus 400 "Session ID is required")
            | Some sid =>
                if sid =? EmptyString then ret (ResStatus 400 "Session ID is required")
                else
                  userMessage <- createMessage
                                   (mkInsert (js_or (Some message) defaultUploadText)
                                      "user" sid (Some imagePath) (Some "image")) ;;
                  analysisResult <- analyzeImage imagePath
                                      (if message =? EmptyString then None else Some message) ;;
                  assistantMessage <- createMessage
                                        (mkInsert analysisResult "assistant" sid
                                           None (Some "text")) ;;
                  ret (ResPair userMessage assistantMessage)
            end
        end)
       (fun error => ret (ResStatus 500 (exn_message error)))).

(** [app.post("/api/generate-image", ...)] *)
Definition post_generate_image (body : Body) : Handler :=
  route
    (try_catch
       ('(prompt, sid) <- imageGenerationSchema_parse body ;;
        userMessage <- createMessage
                         (mkInsert ("Generate an image: " ++ prompt)
                            "user" sid None (Some "text")) ;;
        now <- date_now ;;
        let imageFilename := "generated_" ++ string_of_Z now ++ ".jpg" in
        let imagePath := Path.join "uploads" imageFilename in
        generateImage prompt imagePath ;;;
        assistantMessage <- createMessage
                              (mkInsert
                                 ("I've generated an image based on your prompt: " ++ dquote
                                    ++ prompt ++ dquote)
                                 "assistant" sid (Some imagePath)
                                 (Some "image_generation")) ;;
        ret (ResPair userMessage assistantMessage))
       (fun error => ret (ResStatus 500 (exn_message error)))).

(** [app.get("/api/images/:filename", ...)] *)
Definition get_image (filename : string) : Handler :=
  route
    (let imagePath := Path.join "uploads" filename in
     present <- existsSync imagePath ;;
     if present then ret (ResSendFile (Path.resolve (cwd E) imagePath))
     else ret (ResStatus 404 "Image not found")).
End Server.

(** The three request protocols. *)
Inductive Invocation : Type :=
| TextMessage (body : Body)
| ImageUpload (req : UploadRequest)
| ImageGeneration (body : Body).

Definition invoke (E : Env) (i : Invocation) : Handler :=
  match i with
  | TextMessage body => post_chat E body
  | ImageUpload req => post_upload_image E req
  | ImageGeneration body => post_generate_image E body
  end.

(** [this.messages.set(m.id, m)] for each message of a list, in order. *)
Definition persist (created : list Message) (store : MemStorage.t) : MemStorage.t :=
  fold_left (fun m msg => JsMap.set (id msg) msg m) created store.

(** [sub] occurs in [s]. *)
Definition contains (s sub : string) : Prop :=
  exists pre post, s = pre ++ sub ++ post.

(** The role the hosted model is given for a stored role. *)
Definition modelRole (r : string) : string :=
  if r =? "assistant" then "model" else "user".

(** A computation that leaves the store and the counters of the UUID
    generator and of the clock as it found them. *)
Definition keeps {A} (c : M A) : Prop :=
  forall w,
    messages (snd (c w)) = messages w
    /\ uuidDraws (snd (c w)) = uuidDraws w
    /\ clockReads (snd (c w)) = clockReads w.

(** The record that [createMessage] builds in world [w]. *)
Definition created (E : Env) (insertMessage : InsertMessage) (w : World) : Message :=
  MemStorage.newMessage (randomUUID E (uuidDraws w)) (systemClock E (clockReads w))
    insertMessage.

(** The world right after [createMessage]. *)
Definition afterCreate (E : Env) (insertMessage : InsertMessage) (w : World) : World :=
  mkWorld (JsMap.set (randomUUID E (uuidDraws w)) (created E insertMessage w) (messages w))
          (fs w) (S (uuidDraws w)) (S (clockReads w)) (uploadsTaken w) (apiLog w).

(** How many entries an invocation adds to the store. *)
Definition persistedCount (h : Handler) (w : World) : Z :=
  Z.of_nat (JsMap.size (messages (snd (h w)))) - Z.of_nat (JsMap.size (messages w)).

(** What an invocation may leave behind: nothing; the user's message and an
    error status; or the user's message, then the assistant's, and both in
    the response. *)
Definition userThenAssistant (before : MemStorage.t) (out : Response * World) : Prop :=
  exists l,
    messages (snd out) = persist l before
    /\ ((l = [] /\ forall u a, fst out <> ResPair u a)
        \/ (exists u, l = [u] /\ role u = "user"
              /\ exists msg, fst out = ResStatus 500 msg)
        \/ (exists u a, l = [u; a] /\ role u = "user" /\ role a = "assistant"
              /\ fst out = ResPair u a)).

(** A file name that is one ordinary path segment: not empty, not [.] or
    [..], and without a separator. *)
Fixpoint hasSep (s : string) : bool :=
  match s with
  | EmptyString => false
  | String c r => Ascii.eqb c Path.sep || hasSep r
  end.

Definition plainName (s : string) : bool :=
  negb (s =? EmptyString) && negb (s =? ".") && negb (s =? "..") && negb (hasSep s).

(** [x] occurs in [l] at a position before an occurrence of [y]. *)
Definition Before {A} (x y : A) (l : list A) : Prop :=
  exists a b c, l = (a ++ x :: b ++ y :: c)%list.

(* ===================================================================== *)
(** ** Concrete platforms and requests *)
(* ===================================================================== *)

Module Scenario.
Definition uuidOf (n : nat) : string := "uuid-" ++ string_of_Z (Z.of_nat n).

Definition tick (n : nat) : Z := 1700000000000 + Z.of_nat n.

Definition nameOf (n : nat) : string := "upload" ++ string_of_Z (Z.of_nat n).

Definition replying (reply : string) (n : nat) (rq : ApiRequest) : ApiOutcome :=
  ApiResolves (mkResponse (Some reply) None).

Definition rejecting (n : nat) (rq : ApiRequest) : ApiOutcome :=
  ApiRejects (JsError "429 quota exceeded").

(** The model answers the [n]-th call with one image whose data names [n]. *)
Definition painting (n : nat) (rq : ApiRequest) : ApiOutcome :=
  ApiResolves
    (mkResponse None
       (Some [mkCandidate
                (Some (Some [mkRPart None;
                             mkRPart (Some (mkInline
                                (Some ("image" ++ string_of_Z (Z.of_nat n)))))]))])).

Definition platform (model : nat -> ApiRequest -> ApiOutcome) (clock : nat -> Z) : Env :=
  mkEnv uuidOf clock model nameOf (fun s => s) (fun s => s) "/srv/app".

(** A disk with the upload directory and one file of the application. *)
Definition disk : string -> FsNode :=
  fun p => if p =? "/srv/app/uploads" then Directory
           else if p =? "/srv/app" then Directory
           else if p =? "/srv/app/package.json" then File "{ }"
           else Absent.

Definition start : World := mkWorld JsMap.empty disk 0 0 0 [].

Definition json2 (k1 v1 k2 v2 : string) : Body :=
  fun k => if k =? k1 then JString v1 else if k =? k2 then JString v2 else JUndefined.

Definition chatBody (message sid : string) : Body :=
  json2 "message" message "sessionId" sid.

Definition promptBody (prompt sid : string) : Body :=
  json2 "prompt" prompt "sessionId" sid.

Definition message3 (k sid : string) (t : Z) (text : string) : string * Message :=
  (k, mkMessage k text "user" sid t None (Some "text")).

(** Two sessions, interleaved; two messages of [s1] share a timestamp. *)
Definition mixed : MemStorage.t :=
  [message3 "k1" "s1" 30 "c"; message3 "k2" "s2" 10 "x"; message3 "k3" "s1" 20 "a";
   message3 "k4" "s1" 20 "b"; message3 "k5" "s2" 5 "y"].

Definition mixedWorld : World := mkWorld mixed disk 5 5 0 [].

(** A history whose first image is gone from the disk, whose second turn has
    no image and whose third image is still there. *)
Definition turns : list Turn :=
  [mkTurn "user" "look at this" (Some "uploads/gone.jpg");
   mkTurn "assistant" "a cat" None;
   mkTurn "user" "and this" (Some "package.json")].
End Scenario.

(* ===================================================================== *)
(** ** The rest of the server *)
(* ===================================================================== *)

(** Every route of [registerRoutes]. *)
Inductive Request : Type :=
| PostChat (body : Body)
| GetChat (sid : string)
| DeleteChat (sid : string)
| PostUploadImage (req : UploadRequest)
| PostGenerateImage (body : Body)
| GetImage (filename : string).

Definition serve (E : Env) (r : Request) : Handler :=
  match r with
  | PostChat body => post_chat E body
  | GetChat sid => get_chat sid
  | DeleteChat sid => delete_chat sid
  | PostUploadImage req => post_upload_image E req
  | PostGenerateImage body => post_generate_image E body
  | GetImage filename => get_image E filename
  end.

(** [generateChatResponse] of server/services/gemini.ts. *)
Definition generateChatResponse (E : Env) (message : string) : M string :=
  try_catch
    (response <- generateContent E
                   (mkRequest "gemini-2.5-flash" (ContentsString message) []) ;;
     ret (js_or (rs_text response) fallbackReply))
    (fun _ => throw (JsError "Failed to generate response from Gemini API")).

(** [User = typeof users.$inferSelect], [InsertUser]. *)
Record User : Type := mkUser {
  user_id : string;
  username : string;
  password : string
}.

Record InsertUser : Type := mkInsertUser {
  iu_username : string;
  iu_password : string
}.

(** The user half of [MemStorage]; the id drawn by [randomUUID()] is an
    argument of [createUser]. *)
Module MemUsers.
Definition t : Type := JsMap.t User.

Definition getUser (id : string) (users : t) : option User :=
  JsMap.get id users.

Definition getUserByUsername (name : string) (users : t) : option User :=
  find (fun user => username user =? name) (JsMap.values users).

Definition createUser (uuid : string) (insertUser : InsertUser) (users : t) : User * t :=
  let user := mkUser uuid (iu_username insertUser) (iu_password insertUser) in
  (user, JsMap.set uuid user users).
End MemUsers.

(** Every entry of the store sits under the id of its message. *)
Definition keyed (store : MemStorage.t) : Prop :=
  Forall (fun e => id (snd e) = fst e) store.

(** The store holds its messages in non-decreasing order of timestamp. *)
Definition chronological (store : MemStorage.t) : Prop :=
  StronglySorted (fun a b => (timestamp a <= timestamp b)%Z) (JsMap.values store).

(** The requests a computation sends to the hosted model. *)
Definition sends {A} (n : nat) (c : M A) : Prop :=
  forall w, exists l, apiLog (snd (c w)) = (apiLog w ++ l)%list /\ length l <= n.

(** A property of the world that a computation hands on. *)
Definition preserves (P : World -> Prop) {A} (c : M A) : Prop :=
  forall w, P w -> P (snd (c w)).

(** A property that only looks at the store and at the two counters. *)
Definition storeOnly (P : World -> Prop) : Prop :=
  forall w w',
    messages w' = messages w -> uuidDraws w' = uuidDraws w ->
    clockReads w' = clockReads w -> P w -> P w'.

(** The world after a sequence of requests, served one after the other. *)
Definition serveAll (E : Env) (rs : list Request) (w : World) : World :=
  fold_left (fun w r => snd (serve E r w)) rs w.

(** The store is a well-formed [Map] whose keys are the ids of its messages. *)
Definition storeInv (w : World) : Prop :=
  JsMap.wf (messages w) /\ keyed (messages w).

(** Every key was drawn from the UUID source, every timestamp is at most
    the next clock reading, and the store is in order of timestamp. *)
Definition timeInv (E : Env) (w : World) : Prop :=
  (forall k, In k (JsMap.keys (messages w)) ->
             exists j, j < uuidDraws w /\ k = randomUUID E j)
  /\ (forall m, In m (JsMap.values (messages w)) ->
                (timestamp m <= systemClock E (clockReads w))%Z)
  /\ chronological (messages w).

(** What the two request schemas accept: a string of 1 to [hi] characters
    under [name] and a non-empty string under [sessionId]. *)
Definition validBody (name : string) (hi : nat) (body : Body) : Prop :=
  exists a s,
    body name = JString a /\ body "sessionId" = JString s
    /\ 1 <= String.length a <= hi /\ 1 <= String.length s.

(* ===================================================================== *)
(** ** The client: image-upload.tsx, image-generation-dialog.tsx, the chat page *)
(* ===================================================================== *)

Module Client.
(** [url.split('/').pop()] *)
Definition lastSegment (url : string) : string :=
  last (Path.split url) EmptyString.

(** The [src] of the image of a message: [`/api/images/${...}`]; the file
    name the server route receives is [lastSegment imageUrl]. *)
Definition imageSrc (imageUrl : string) : string :=
  "/api/images/" ++ lastSegment imageUrl.

(** White space of [String.prototype.trim], for code units below 256: tab,
    line feed, vertical tab, form feed, carriage return, space and no-break
    space. *)
Definition isWhiteSpace (c : ascii) : bool :=
  let n := nat_of_ascii c in
  (Nat.leb 9 n && Nat.leb n 13) || Nat.eqb n 32 || Nat.eqb n 160.

Fixpoint trimStart (s : string) : string :=
  match s with
  | EmptyString => EmptyString
  | String c r => if isWhiteSpace c then trimStart r else s
  end.

Fixpoint trimEnd (s : string) : string :=
  match s with
  | EmptyString => EmptyString
  | String c r =>
      match trimEnd r with
      | EmptyString => if isWhiteSpace c then EmptyString else String c EmptyString
      | r' => String c r'
      end
  end.

(** [s.trim()] *)
Definition trim (s : string) : string := trimEnd (trimStart s).

Definition headSpace (s : string) : bool :=
  match s with
  | String c _ => isWhiteSpace c
  | EmptyString => false
  end.

Fixpoint lastSpace (s : string) : bool :=
  match s with
  | EmptyString => false
  | String c EmptyString => isWhiteSpace c
  | String _ r => lastSpace r
  end.

(** A [File] of the browser. *)
Record FileInfo : Type := mkFile {
  file_name : string;
  file_type : string;
  file_bytes : string
}.

(** [handleDrop] of [ImageUpload]: the file handed to [onImageSelect], if
    any. *)
Definition handleDrop (files : list FileInfo) : option FileInfo :=
  match files with
  | file :: _ => if String.prefix "image/" (file_type file) then Some file else None
  | [] => None
  end.

(** [handleFileSelect] of [ImageUpload]. *)
Definition handleFileSelect (files : option (list FileInfo)) : option FileInfo :=
  match files with
  | Some (file :: _) => Some file
  | _ => None
  end.

(** What [handleSendMessage] of the chat page starts. *)
Inductive Mutation : Type :=
| UploadImage (file : FileInfo) (messageText : string)
| SendMessage (messageContent : string)
| GenerateImage (prompt : string).

Definition handleSendMessage (selectedImage : option FileInfo) (message : string)
    (uploadPending sendPending : bool) : option Mutation :=
  match selectedImage, uploadPending with
  | Some file, false =>
      Some (UploadImage file (js_or (Some (trim message)) "Please analyze this image."))
  | _, _ =>
      if negb (trim message =? EmptyString) && negb sendPending
      then Some (SendMessage (trim message))
      else None
  end.

(** [handleGenerateImage] of the chat page. *)
Definition handleGenerateImage (prompt : string) (generatePending : bool)
  : option Mutation :=
  if negb generatePending then Some (GenerateImage prompt) else None.

(** The request a mutation sends, for the session id of the page; a file
    without a type travels as application/octet-stream. *)
Definition requestOf (sessionId : string) (m : Mutation) : Request :=
  match m with
  | SendMessage messageContent =>
      PostChat (fun k => if k =? "message" then JString messageContent
                         else if k =? "sessionId" then JString sessionId
                         else JUndefined)
  | GenerateImage prompt =>
      PostGenerateImage (fun k => if k =? "prompt" then JString prompt
                                  else if k =? "sessionId" then JString sessionId
                                  else JUndefined)
  | UploadImage file messageText =>
      PostUploadImage
        (mkUpload (Some (mkPart (if file_type file =? EmptyString
                                 then "application/octet-stream"
                                 else file_type file)
                                (file_bytes file)))
           (fun k => if k =? "sessionId" then Some sessionId
                     else if k =? "message" then Some messageText
                     else None))
  end.

(** The state of [ImageGenerationDialog]. *)
Record Dialog : Type := mkDialog {
  prompt : string;
  open : bool
}.

(** [handleGenerate]: the argument of [onGenerateImage], if it is called, and
    the state afterwards. *)
Definition handleGenerate (isGenerating : bool) (d : Dialog) : option string * Dialog :=
  if negb (trim (prompt d) =? EmptyString) && negb isGenerating
  then (Some (trim (prompt d)), mkDialog EmptyString false)
  else (None, d).

(** [handleKeyDown] of the dialog: whether the default action is prevented,
    and what [handleGenerate] did. *)
Definition handleKeyDown (key : string) (shiftKey isGenerating : bool) (d : Dialog)
  : bool * (option string * Dialog) :=
  if (key =? "Enter") && negb shiftKey
  then (true, handleGenerate isGenerating d)
  else (false, (None, d)).
End Client.

(* ===================================================================== *)
(** * Properties *)
(* ===================================================================== *)

(** ** Sorting *)

Section JsSortFacts.
Context {A : Type} (cmp : A -> A -> Z).

Lemma sort_insert_perm (x : A) (l : list A) :
  Permutation (sort_insert cmp x l) (x :: l).
Proof.
  induction l as [|y r IH]; simpl.
  - apply Permutation_refl.
  - destruct (cmp x y <=? 0)%Z.
    + apply Permutation_refl.
    + eapply perm_trans; [apply perm_skip, IH | apply perm_swap].
Qed.

Lemma js_sort_perm (l : list A) : Permutation (js_sort cmp l) l.
Proof.
  induction l as [|x r IH]; simpl.
  - constructor.
  - eapply perm_trans; [apply sort_insert_perm | apply perm_skip, IH].
Qed.

Lemma js_sort_nil_iff (l : list A) : js_sort cmp l = [] <-> l = [].
Proof.
  split; intros H.
  - pose proof (js_sort_perm l) as P. rewrite H in P.
    now apply Permutation_nil in P.
  - now subst.
Qed.

(** Stability: the elements of a class whose members never compare
    "greater" with one another come out in the order they went in. *)
Lemma sort_insert_stable (p : A -> bool) (x : A) (l : list A) :
  (forall a b, p a = true -> p b = true -> (cmp a b <= 0)%Z) ->
  filter p (sort_insert cmp x l) = filter p (x :: l).
Proof.
  intros Hp. induction l as [|y r IH]; [reflexivity|].
  cbn [sort_insert]. destruct (cmp x y <=? 0)%Z eqn:Hc; [reflexivity|].
  apply Z.leb_gt in Hc.
  cbn [filter] in *. rewrite IH.
  destruct (p x) eqn:Hx, (p y) eqn:Hy; try reflexivity.
  specialize (Hp x y Hx Hy). lia.
Qed.

Lemma js_sort_stable (p : A -> bool) (l : list A) :
  (forall a b, p a = true -> p b = true -> (cmp a b <= 0)%Z) ->
  filter p (js_sort cmp l) = filter p l.
Proof.
  intros Hp. induction l as [|x r IH]; [reflexivity|].
  cbn [js_sort]. rewrite sort_insert_stable by assumption.
  cbn [filter]. now rewrite IH.
Qed.

Section Ordered.
Hypothesis cmp_total : forall a b, (0 < cmp a b)%Z -> (cmp b a <= 0)%Z.
Hypothesis cmp_trans :
  forall a b c, (cmp a b <= 0)%Z -> (cmp b c <= 0)%Z -> (cmp a c <= 0)%Z.

Let le (a b : A) : Prop := (cmp a b <= 0)%Z.

Lemma sort_insert_sorted (x : A) (l : list A) :
  StronglySorted le l -> StronglySorted le (sort_insert cmp x l).
Proof.
  induction 1 as [|y r Hr IH Hy]; simpl.
  - repeat constructor.
  - destruct (cmp x y <=? 0)%Z eqn:Hc.
    + apply Z.leb_le in Hc. constructor; [now constructor|].
      constructor; [exact Hc|].
      rewrite Forall_forall in *. intros z Hz.
      eapply cmp_trans; [exact Hc | now apply Hy].
    + apply Z.leb_gt in Hc. constructor; [exact IH|].
      rewrite Forall_forall in *. intros z Hz.
      apply (Permutation_in _ (sort_insert_perm x r)) in Hz.
      destruct Hz as [<-|Hz]; [now apply cmp_total | now apply Hy].
Qed.

Lemma js_sort_sorted (l : list A) : StronglySorted le (js_sort cmp l).
Proof.
  induction l as [|x r IH]; simpl.
  - constructor.
  - now apply sort_insert_sorted.
Qed.
End Ordered.
End JsSortFacts.

(** ** The [Map] *)

Module JsMapFacts.
Import JsMap.

Lemma has_false_iff {V} (k : string) (m : t V) :
  has k m = false <-> ~ In k (keys m).
Proof.
  unfold has. induction (keys m) as [|k' r IH]; simpl.
  - tauto.
  - rewrite orb_false_iff, IH, String.eqb_neq. tauto.
Qed.

Lemma set_fresh {V} (k : string) (v : V) (m : t V) :
  has k m = false -> set k v m = (m ++ [(k, v)])%list.
Proof.
  rewrite has_false_iff. unfold keys.
  induction m as [|[k' v'] r IH]; simpl; intros H; [reflexivity|].
  destruct (k' =? k) eqn:Hk.
  - apply String.eqb_eq in Hk. tauto.
  - rewrite IH; tauto.
Qed.

Lemma keys_set {V} (k : string) (v : V) (m : t V) :
  keys (set k v m) = if has k m then keys m else (keys m ++ [k])%list.
Proof.
  unfold has, keys. induction m as [|[k' v'] r IH]; simpl; [reflexivity|].
  destruct (k' =? k) eqn:Hk; simpl; [reflexivity|].
  rewrite IH. now destruct (existsb _ _).
Qed.

Lemma wfb_wf {V} (m : t V) : wfb m = true -> wf m.
Proof.
  unfold wfb, wf. induction (keys m) as [|k r IH]; simpl; intros H; [constructor|].
  apply andb_true_iff in H as [Hk Hr]. constructor; [|now apply IH].
  intros Hin. apply negb_true_iff in Hk.
  assert (existsb (fun k' => k' =? k) r = true) as Hex; [|congruence].
  apply existsb_exists. exists k. split; [exact Hin|apply String.eqb_refl].
Qed.

Lemma wf_empty {V} : wf (@empty V).
Proof. constructor. Qed.

Lemma wf_set {V} (k : string) (v : V) (m : t V) : wf m -> wf (set k v m).
Proof.
  unfold wf. intros H. rewrite keys_set.
  destruct (has k m) eqn:Hh; [exact H|].
  apply has_false_iff in Hh.
  apply NoDup_rev in H. rewrite <- (rev_involutive (keys m ++ [k])).
  apply NoDup_rev. rewrite rev_app_distr. simpl.
  constructor; [now rewrite <- in_rev | exact H].
Qed.

Lemma wf_filter {V} (f : string * V -> bool) (m : t V) : wf m -> wf (filter f m).
Proof.
  unfold wf, keys. induction m as [|e r IH]; simpl; intros H; [constructor|].
  inversion H as [|? ? Hn Hr]; subst.
  destruct (f e); simpl; [constructor|]; auto.
  intros Hin. apply Hn. apply in_map_iff in Hin as [e' [He Hin]].
  apply filter_In in Hin as [Hin _]. apply in_map_iff. eauto.
Qed.

Lemma wf_delete {V} (k : string) (m : t V) : wf m -> wf (delete k m).
Proof. apply wf_filter. Qed.

(** In a well-formed map an entry is determined by its key. *)
Lemma wf_key_inj {V} (m : t V) (e e' : string * V) :
  wf m -> In e m -> In e' m -> fst e = fst e' -> e = e'.
Proof.
  unfold wf, keys. induction m as [|x r IH]; simpl; [tauto|].
  intros H He He' Hk. inversion H as [|? ? Hn Hr]; subst.
  destruct He as [->|He], He' as [->|He']; auto.
  - exfalso. apply Hn. rewrite Hk. now apply in_map.
  - exfalso. apply Hn. rewrite <- Hk. now apply in_map.
Qed.

Lemma get_set_same {V} (k : string) (v : V) (m : t V) : get k (set k v m) = Some v.
Proof.
  induction m as [|[k' v'] r IH]; simpl.
  - now rewrite String.eqb_refl.
  - destruct (k' =? k) eqn:Hk; simpl; now rewrite Hk.
Qed.

Lemma get_set_other {V} (k k' : string) (v : V) (m : t V) :
  k <> k' -> get k' (set k v m) = get k' m.
Proof.
  intros Hne. induction m as [|[k0 v0] r IH]; simpl.
  - apply String.eqb_neq in Hne. now rewrite Hne.
  - destruct (k0 =? k) eqn:Hk; simpl.
    + apply String.eqb_eq in Hk. subst k0.
      apply String.eqb_neq in Hne. now rewrite Hne.
    + now rewrite IH.
Qed.

(** Deleting a list of keys one after the other. *)
Lemma delete_all {V} (ks : list string) (m : t V) :
  fold_left (fun m k => delete k m) ks m
  = filter (fun e => negb (existsb (fun k => fst e =? k) ks)) m.
Proof.
  revert m. induction ks as [|k r IH]; intros m; simpl.
  - induction m as [|e m IHm]; simpl; [reflexivity|]. now rewrite <- IHm.
  - rewrite IH. unfold delete.
    induction m as [|e m IHm]; simpl; [reflexivity|].
    destruct (fst e =? k); simpl; [exact IHm|].
    destruct (existsb _ r); simpl; [exact IHm | now rewrite IHm].
Qed.
End JsMapFacts.

(** ** The message store *)

Module StoreFacts.
Import MemStorage.

Lemma byTimestamp_total (a b : Message) :
  (0 < byTimestamp a b)%Z -> (byTimestamp b a <= 0)%Z.
Proof. unfold byTimestamp. lia. Qed.

Lemma byTimestamp_trans (a b c : Message) :
  (byTimestamp a b <= 0)%Z -> (byTimestamp b c <= 0)%Z -> (byTimestamp a c <= 0)%Z.
Proof. unfold byTimestamp. lia. Qed.

Lemma listed_perm (sid : string) (store : t) :
  Permutation (getMessagesBySessionId sid store)
              (filter (bySession sid) (JsMap.values store)).
Proof. apply js_sort_perm. Qed.

Lemma listed_sorted (sid : string) (store : t) :
  StronglySorted (fun a b => (timestamp a <= timestamp b)%Z)
                 (getMessagesBySessionId sid store).
Proof.
  pose proof (js_sort_sorted byTimestamp byTimestamp_total byTimestamp_trans
                (filter (bySession sid) (JsMap.values store))) as H.
  unfold getMessagesBySessionId.
  induction H as [|x l Hl IH Hx]; constructor; auto.
  eapply Forall_impl; [|exact Hx]. unfold byTimestamp. intros; lia.
Qed.

Lemma listed_in (sid : string) (store : t) (m : Message) :
  In m (getMessagesBySessionId sid store)
  <-> In m (JsMap.values store) /\ sessionId m = sid.
Proof.
  split.
  - intros H. apply (Permutation_in _ (listed_perm sid store)) in H.
    apply filter_In in H as [H1 H2]. split; [exact H1|].
    now apply String.eqb_eq in H2.
  - intros [H1 H2].
    apply (Permutation_in _ (Permutation_sym (listed_perm sid store))).
    apply filter_In. split; [exact H1|]. now apply String.eqb_eq.
Qed.

Lemma listed_nil_iff (sid : string) (store : t) :
  getMessagesBySessionId sid store = []
  <-> forall m, In m (JsMap.values store) -> sessionId m <> sid.
Proof.
  split.
  - intros H m Hm Hs.
    assert (In m (getMessagesBySessionId sid store)) as Hin
      by (apply listed_in; auto).
    rewrite H in Hin. destruct Hin.
  - intros H. destruct (getMessagesBySessionId sid store) as [|m l] eqn:Hl;
      [reflexivity|].
    assert (In m (getMessagesBySessionId sid store)) as Hin
      by (rewrite Hl; now left).
    apply listed_in in Hin as [H1 H2]. now apply H in H1.
Qed.

Lemma listed_length (sid : string) (store : t) :
  length (getMessagesBySessionId sid store)
  = length (filter (bySession sid) (JsMap.values store)).
Proof. apply Permutation_length, listed_perm. Qed.

(** The keys collected by [clearMessagesBySessionId] are, in a well-formed
    store, the keys of the session's entries and of no other entry. *)
Lemma toDelete_exact (sid : string) (store : t) (e : string * Message) :
  JsMap.wf store -> In e store ->
  existsb (fun k => fst e =? k) (messagesToDelete sid store) = bySession sid (snd e).
Proof.
  intros Hwf He. unfold messagesToDelete, JsMap.entries.
  destruct (bySession sid (snd e)) eqn:Hs.
  - apply existsb_exists. exists (fst e). split; [|apply String.eqb_refl].
    apply in_map. apply filter_In. auto.
  - apply not_true_is_false. intros H.
    apply existsb_exists in H as [k [Hk Heq]].
    apply String.eqb_eq in Heq. subst k.
    apply in_map_iff in Hk as [e' [Hf Hin]].
    apply filter_In in Hin as [Hin Hs'].
    assert (e' = e) by (eapply JsMapFacts.wf_key_inj; eauto).
    subst e'. congruence.
Qed.

Lemma clear_is_filter (sid : string) (store : t) :
  JsMap.wf store ->
  clearMessagesBySessionId sid store
  = filter (fun e => negb (bySession sid (snd e))) store.
Proof.
  intros Hwf. unfold clearMessagesBySessionId.
  rewrite JsMapFacts.delete_all. apply filter_ext_in.
  intros e He. now rewrite toDelete_exact.
Qed.

Lemma wf_clear (sid : string) (store : t) :
  JsMap.wf store -> JsMap.wf (clearMessagesBySessionId sid store).
Proof.
  intros H. unfold clearMessagesBySessionId.
  rewrite JsMapFacts.delete_all. now apply JsMapFacts.wf_filter.
Qed.

Lemma filter_session_after_clear (sid sid' : string) (store : t) :
  filter (bySession sid')
         (JsMap.values (filter (fun e => negb (bySession sid (snd e))) store))
  = if sid' =? sid then []
    else filter (bySession sid') (JsMap.values store).
Proof.
  unfold JsMap.values, bySession.
  induction store as [|[k m] r IH]; simpl; [now destruct (sid' =? sid)|].
  destruct (sessionId m =? sid) eqn:Hm; simpl.
  - rewrite IH. destruct (sid' =? sid) eqn:Hs; [reflexivity|].
    apply String.eqb_eq in Hm. rewrite Hm.
    rewrite String.eqb_sym in Hs. now rewrite Hs.
  - rewrite IH. destruct (sid' =? sid) eqn:Hs; [|reflexivity].
    apply String.eqb_eq in Hs. subst sid'. now rewrite Hm.
Qed.

Lemma filter_none {A} (f : A -> bool) (l : list A) :
  (forall x, In x l -> f x = true) -> filter f l = l.
Proof.
  induction l as [|x r IH]; simpl; intros H; [reflexivity|].
  rewrite (H x) by now left. now rewrite IH by auto.
Qed.
End StoreFacts.

(** C3. For every session and every state of the store, [listBySession]
    (here [getMessagesBySessionId]) returns normally, and so does the route
    that serves it; its result is a
    rearrangement of exactly the stored messages whose [sessionId] is the
    requested one, in non-decreasing order of timestamp; every listed message
    belongs to the session; and a session without messages lists as the empty
    sequence. *)
Theorem listBySession_exact_sorted (w : World) (sid : string) :
  let listed := MemStorage.getMessagesBySessionId sid (messages w) in
  getMessagesBySessionId sid w = (Ok listed, w)
  /\ get_chat sid w = (ResMessages listed, w)
  /\ Permutation listed
       (filter (fun m => sessionId m =? sid) (JsMap.values (messages w)))
  /\ StronglySorted (fun a b => (timestamp a <= timestamp b)%Z) listed
  /\ (forall m, In m listed -> sessionId m = sid)
  /\ ((forall m, In m (JsMap.values (messages w)) -> sessionId m <> sid)
      -> listed = []).
Proof.
  intros listed. split; [reflexivity|]. split; [reflexivity|].
  split; [apply StoreFacts.listed_perm|].
  split; [apply StoreFacts.listed_sorted|].
  split.
  - intros m Hm. now apply StoreFacts.listed_in in Hm.
  - apply StoreFacts.listed_nil_iff.
Qed.

(** C4. In a store whose keys are unique, [clearSession]
    (here [clearMessagesBySessionId]) returns normally, the route that serves
    it answers with success, and the cleared store keeps exactly the
    entries of the other sessions, in their order; the listing of every other
    session is unchanged; clearing again changes nothing; clearing a session
    that has no message leaves the store as it was; and the cleared session
    lists as the empty sequence. *)
Theorem clearSession_exact (w : World) (sid : string) :
  JsMap.wf (messages w) ->
  let cleared := MemStorage.clearMessagesBySessionId sid (messages w) in
  clearMessagesBySessionId sid w
    = (Ok tt, with_messages (MemStorage.clearMessagesBySessionId sid) w)
  /\ fst (delete_chat sid w) = ResOkMessage "Chat history cleared"
  /\ cleared = filter (fun e => negb (sessionId (snd e) =? sid)) (messages w)
  /\ (forall sid', sid' <> sid ->
        MemStorage.getMessagesBySessionId sid' cleared
        = MemStorage.getMessagesBySessionId sid' (messages w))
  /\ MemStorage.clearMessagesBySessionId sid cleared = cleared
  /\ ((forall m, In m (JsMap.values (messages w)) -> sessionId m <> sid)
      -> cleared = messages w)
  /\ MemStorage.getMessagesBySessionId sid cleared = [].
Proof.
  intros Hwf cleared.
  assert (Hc : cleared = filter (fun e => negb (sessionId (snd e) =? sid)) (messages w))
    by (apply StoreFacts.clear_is_filter; exact Hwf).
  split; [reflexivity|]. split; [reflexivity|].
  split; [exact Hc|]. split; [|split; [|split]].
  - intros sid' Hne. unfold MemStorage.getMessagesBySessionId. rewrite Hc.
    rewrite (StoreFacts.filter_session_after_clear sid sid').
    apply String.eqb_neq in Hne. now rewrite Hne.
  - rewrite StoreFacts.clear_is_filter by (apply StoreFacts.wf_clear; exact Hwf).
    fold cleared. rewrite Hc. apply StoreFacts.filter_none.
    intros e He. now apply filter_In in He.
  - intros Hnone. rewrite Hc. apply StoreFacts.filter_none.
    intros [k m] He. simpl. apply negb_true_iff, String.eqb_neq.
    apply Hnone. unfold JsMap.values. apply in_map_iff. exists (k, m). auto.
  - unfold MemStorage.getMessagesBySessionId. rewrite Hc.
    rewrite (StoreFacts.filter_session_after_clear sid sid).
    now rewrite String.eqb_refl.
Qed.

(** ** Computations that do not touch the store *)

Create HintDb keeps discriminated.

Lemma keeps_ret {A} (a : A) : keeps (ret a).
Proof. intros w. auto. Qed.

Lemma keeps_throw {A} (e : Exn) : keeps (@throw A e).
Proof. intros w. auto. Qed.

Lemma keeps_bind {A B} (c : M A) (k : A -> M B) :
  keeps c -> (forall a, keeps (k a)) -> keeps (bind c k).
Proof.
  intros Hc Hk w. unfold bind. specialize (Hc w).
  destruct (c w) as [[a|e] w1]; simpl in Hc.
  - destruct (Hk a w1) as (H1 & H2 & H3). destruct Hc as (G1 & G2 & G3).
    repeat split; congruence.
  - exact Hc.
Qed.

Lemma keeps_try_catch {A} (c : M A) (h : Exn -> M A) :
  keeps c -> (forall e, keeps (h e)) -> keeps (try_catch c h).
Proof.
  intros Hc Hh w. unfold try_catch. specialize (Hc w).
  destruct (c w) as [[a|e] w1]; simpl in Hc.
  - exact Hc.
  - destruct (Hh e w1) as (H1 & H2 & H3). destruct Hc as (G1 & G2 & G3).
    repeat split; congruence.
Qed.

Lemma keeps_mapM {A B} (f : A -> M B) (l : list A) :
  (forall a, keeps (f a)) -> keeps (mapM f l).
Proof.
  intros Hf. induction l as [|x r IH]; simpl.
  - apply keeps_ret.
  - apply keeps_bind; [apply Hf|]. intros y.
    apply keeps_bind; [exact IH|]. intros ys. apply keeps_ret.
Qed.

Lemma keeps_generateContent (E : Env) (rq : ApiRequest) : keeps (generateContent E rq).
Proof. intros w. unfold generateContent. now destruct (hostedModel _ _ _). Qed.

Lemma keeps_existsSync (E : Env) (p : string) : keeps (existsSync E p).
Proof. intros w. simpl. auto. Qed.

Lemma keeps_readFileSync (E : Env) (p : string) : keeps (readFileSync E p).
Proof. intros w. unfold readFileSync. now destruct (node_at E w p). Qed.

Lemma keeps_writeFileSync (E : Env) (p bytes : string) : keeps (writeFileSync E p bytes).
Proof. intros w. unfold writeFileSync. now destruct (node_at E w p). Qed.

Lemma keeps_multer_name (E : Env) : keeps (multer_name E).
Proof. intros w. simpl. auto. Qed.

#[local] Hint Resolve keeps_ret keeps_throw keeps_generateContent keeps_existsSync
  keeps_readFileSync keeps_writeFileSync keeps_multer_name : keeps.

(** Splits a computation along its binds, handlers and case distinctions. *)
Ltac keeps_steps :=
  repeat first
    [ apply keeps_bind; [|intros ?]
    | apply keeps_try_catch; [|intros ?]
    | progress auto with keeps
    | match goal with
      | |- keeps (match ?x with _ => _ end) => destruct x
      | |- keeps (if ?x then _ else _) => destruct x
      end ].

Lemma keeps_formatMessage (E : Env) (msg : Turn) : keeps (formatMessage E msg).
Proof. unfold formatMessage. keeps_steps. Qed.

Lemma keeps_formatMessages (E : Env) (msgs : list Turn) : keeps (formatMessages E msgs).
Proof. apply keeps_mapM. apply keeps_formatMessage. Qed.

#[local] Hint Resolve keeps_formatMessages : keeps.

Lemma keeps_generateChatResponseWithHistory (E : Env) (msgs : list Turn) :
  keeps (generateChatResponseWithHistory E msgs).
Proof. unfold generateChatResponseWithHistory. keeps_steps. Qed.

Lemma keeps_analyzeImage (E : Env) (imagePath : string) (prompt : option string) :
  keeps (analyzeImage E imagePath prompt).
Proof. unfold analyzeImage. keeps_steps. Qed.

Lemma keeps_generateImage (E : Env) (prompt outputPath : string) :
  keeps (generateImage E prompt outputPath).
Proof. unfold generateImage. keeps_steps. Qed.

Lemma keeps_upload_single (E : Env) (req : UploadRequest) : keeps (upload_single E req).
Proof. unfold upload_single. keeps_steps. Qed.

Lemma keeps_zParse2 (name : string) (hi : nat) (body : Body) (w : World) :
  snd (zParse2 name hi body w) = w.
Proof.
  unfold zParse2.
  destruct (zString name 1 (Some hi) (body name)),
           (zString "sessionId" 1 None (body "sessionId")); reflexivity.
Qed.

Lemma createMessage_run (E : Env) (insertMessage : InsertMessage) (w : World) :
  createMessage E insertMessage w
  = (Ok (created E insertMessage w), afterCreate E insertMessage w).
Proof. reflexivity. Qed.

Lemma keeps_run {A} (c : M A) (w w' : World) (r : Result A) :
  keeps c -> c w = (r, w') ->
  messages w' = messages w /\ uuidDraws w' = uuidDraws w /\ clockReads w' = clockReads w.
Proof. intros Hk Hr. specialize (Hk w). now rewrite Hr in Hk. Qed.

(** ** The three request protocols *)

Lemma shape_nothing (store : MemStorage.t) (r : Response) (w : World) :
  messages w = store -> (forall u a, r <> ResPair u a) ->
  userThenAssistant store (r, w).
Proof.
  intros Hm Hr. exists []. split; [exact Hm|]. left. split; [reflexivity|exact Hr].
Qed.

Lemma shape_user (store : MemStorage.t) (u : Message) (msg : string) (w : World) :
  messages w = JsMap.set (id u) u store -> role u = "user" ->
  userThenAssistant store (ResStatus 500 msg, w).
Proof.
  intros Hm Hr. exists [u]. split; [exact Hm|]. right; left.
  exists u. repeat split; [exact Hr|]. now exists msg.
Qed.

Lemma shape_both (store : MemStorage.t) (u a : Message) (w : World) :
  messages w = JsMap.set (id a) a (JsMap.set (id u) u store) ->
  role u = "user" -> role a = "assistant" ->
  userThenAssistant store (ResPair u a, w).
Proof.
  intros Hm Hu Ha. exists [u; a]. split; [exact Hm|]. right; right.
  exists u, a. auto.
Qed.

Ltac user_only Hm :=
  match type of Hm with
  | _ = JsMap.set _ ?u _ => apply (shape_user _ u); [exact Hm | reflexivity]
  end.

Lemma chat_shape (E : Env) (body : Body) (w : World) :
  userThenAssistant (messages w) (post_chat E body w).
Proof.
  remember (post_chat E body w) as out eqn:Hout.
  unfold post_chat, route, try_catch, bind, chatRequestSchema_parse in Hout.
  pose proof (keeps_zParse2 "message" 2000 body w) as Hp.
  destruct (zParse2 "message" 2000 body w) as [[[m s]|e] w1]; simpl in Hp; subst w1.
  - rewrite createMessage_run in Hout. unfold getMessagesBySessionId in Hout.
    destruct (generateChatResponseWithHistory E _ _) as [[txt|e] w3] eqn:Hg;
      apply keeps_run in Hg; auto using keeps_generateChatResponseWithHistory;
      destruct Hg as (Hm & _).
    + rewrite createMessage_run in Hout. subst out.
      apply shape_both; [|reflexivity|reflexivity].
      cbn [afterCreate messages]. now rewrite Hm.
    + subst out. cbn [afterCreate messages] in Hm. user_only Hm.
  - subst out. apply shape_nothing; [reflexivity|discriminate].
Qed.

Lemma generate_shape (E : Env) (body : Body) (w : World) :
  userThenAssistant (messages w) (post_generate_image E body w).
Proof.
  remember (post_generate_image E body w) as out eqn:Hout.
  unfold post_generate_image, route, try_catch, bind, imageGenerationSchema_parse in Hout.
  pose proof (keeps_zParse2 "prompt" 1000 body w) as Hp.
  destruct (zParse2 "prompt" 1000 body w) as [[[p s]|e] w1]; simpl in Hp; subst w1.
  - rewrite createMessage_run in Hout. unfold date_now in Hout.
    destruct (generateImage E _ _ _) as [[[]|e] w3] eqn:Hg;
      apply keeps_run in Hg; auto using keeps_generateImage;
      destruct Hg as (Hm & _); cbn [messages afterCreate] in Hm.
    + rewrite createMessage_run in Hout. subst out.
      apply shape_both; [|reflexivity|reflexivity].
      cbn [afterCreate messages]. now rewrite Hm.
    + subst out. cbn [afterCreate messages] in Hm. user_only Hm.
  - subst out. apply shape_nothing; [reflexivity|discriminate].
Qed.

Lemma upload_shape (E : Env) (req : UploadRequest) (w : World) :
  userThenAssistant (messages w) (post_upload_image E req w).
Proof.
  remember (post_upload_image E req w) as out eqn:Hout.
  unfold post_upload_image, route, bind in Hout.
  destruct (upload_single E req w) as [[[imagePath|]|e] w1] eqn:Hu;
    apply keeps_run in Hu; auto using keeps_upload_single;
    destruct Hu as (Hw & _); rewrite <- Hw.
  - unfold try_catch in Hout.
    destruct (up_fields req "sessionId") as [sid|];
      [destruct (sid =? EmptyString)|].
    + subst out. apply shape_nothing; [reflexivity|discriminate].
    + rewrite createMessage_run in Hout.
      destruct (analyzeImage E _ _ _) as [[txt|e] w3] eqn:Hg;
        apply keeps_run in Hg; auto using keeps_analyzeImage;
        destruct Hg as (Hm & _).
      * rewrite createMessage_run in Hout. subst out.
        apply shape_both; [|reflexivity|reflexivity].
        cbn [afterCreate messages]. now rewrite Hm.
      * subst out. cbn [afterCreate messages] in Hm. user_only Hm.
    + subst out. apply shape_nothing; [reflexivity|discriminate].
  - subst out. apply shape_nothing; [reflexivity|discriminate].
  - subst out. apply shape_nothing; [reflexivity|discriminate].
Qed.

Lemma size_set {V} (k : string) (v : V) (m : JsMap.t V) :
  JsMap.size (JsMap.set k v m)
  = if JsMap.has k m then JsMap.size m else S (JsMap.size m).
Proof.
  unfold JsMap.size, JsMap.has, JsMap.keys.
  induction m as [|[k' v'] r IH]; simpl; [reflexivity|].
  destruct (k' =? k); simpl; [reflexivity|].
  rewrite IH. now destruct (existsb _ _).
Qed.

Lemma size_persist (l : list Message) (store : MemStorage.t) :
  JsMap.size store <= JsMap.size (persist l store) <= JsMap.size store + length l.
Proof.
  revert store. unfold persist.
  induction l as [|m r IH]; intros store; simpl; [lia|].
  specialize (IH (JsMap.set (id m) m store)).
  rewrite size_set in IH. destruct (JsMap.has (id m) store); lia.
Qed.

Lemma wf_persist (l : list Message) (store : MemStorage.t) :
  JsMap.wf store -> JsMap.wf (persist l store).
Proof.
  revert store. unfold persist.
  induction l as [|m r IH]; intros store H; simpl; [exact H|].
  apply IH. now apply JsMapFacts.wf_set.
Qed.

(** Every protocol keeps the keys of the store unique. *)
Lemma invoke_preserves_wf (E : Env) (i : Invocation) (w : World) :
  userThenAssistant (messages w) (invoke E i w) ->
  JsMap.wf (messages w) -> JsMap.wf (messages (snd (invoke E i w))).
Proof. intros (l & Hl & _) Hwf. rewrite Hl. now apply wf_persist. Qed.

(** C1, as the code has it. Every invocation of one of the three protocols
    persists no message, or the user's message alone (and then answers with
    status 500), or the user's message followed by the assistant's (and then
    answers with both); an assistant message is never persisted without the
    user message of the same invocation before it. The store grows by at
    most two entries and never shrinks. *)
Theorem invocation_persists_user_then_assistant (E : Env) (i : Invocation) (w : World) :
  userThenAssistant (messages w) (invoke E i w)
  /\ (0 <= persistedCount (invoke E i) w <= 2)%Z.
Proof.
  assert (H : userThenAssistant (messages w) (invoke E i w)).
  { destruct i as [body|req|body]; simpl.
    - apply chat_shape.
    - apply upload_shape.
    - apply generate_shape. }
  split; [exact H|].
  destruct H as (l & Hl & Hshape). unfold persistedCount. rewrite Hl.
  pose proof (size_persist l (messages w)) as Hs.
  assert (length l <= 2).
  { destruct Hshape as [[-> _]|[(u & -> & _)|(u & a & -> & _)]]; simpl; lia. }
  lia.
Qed.

(** C1, as stated, fails: a text message whose model call is rejected leaves
    exactly one new entry in the store, so it is not true that every
    invocation persists exactly 0 or exactly 2 messages. *)
Lemma persisted_exactly_one :
  persistedCount
    (invoke (Scenario.platform Scenario.rejecting Scenario.tick)
       (TextMessage (Scenario.chatBody "Hi" "s1")))
    Scenario.start = 1%Z
  /\ ~ (forall (E : Env) (i : Invocation) (w : World),
          persistedCount (invoke E i) w = 0%Z \/ persistedCount (invoke E i) w = 2%Z).
Proof.
  split; [reflexivity|].
  intros H.
  specialize (H (Scenario.platform Scenario.rejecting Scenario.tick)
                (TextMessage (Scenario.chatBody "Hi" "s1")) Scenario.start).
  vm_compute in H. destruct H as [H|H]; discriminate H.
Qed.

(** ** The history assembler *)

Lemma modelRole_cases (r : string) :
  (r = "assistant" -> modelRole r = "model")
  /\ (r <> "assistant" -> modelRole r = "user").
Proof.
  unfold modelRole. split; intros H.
  - subst r. reflexivity.
  - apply String.eqb_neq in H. now rewrite H.
Qed.

Lemma formatMessage_world (E : Env) (msg : Turn) (w : World) :
  snd (formatMessage E msg w) = w.
Proof.
  unfold formatMessage, bind, existsSync, readFileSync.
  destruct (t_imageUrl msg) as [url|]; [|reflexivity].
  destruct (url =? EmptyString); [reflexivity|]. simpl.
  destruct (node_at E w url) eqn:Hn; simpl; rewrite ?Hn; reflexivity.
Qed.

Lemma formatMessage_role (E : Env) (msg : Turn) (w w' : World) (c : Content) :
  formatMessage E msg w = (Ok c, w') -> c_role c = modelRole (t_role msg).
Proof.
  unfold formatMessage, bind, existsSync, readFileSync, modelRole.
  destruct (t_imageUrl msg) as [url|];
    [destruct (url =? EmptyString); simpl;
     [|destruct (node_at E w url) eqn:Hn; simpl; rewrite ?Hn]|];
    simpl; intros H; inversion H; reflexivity.
Qed.

Lemma formatMessage_missing (E : Env) (msg : Turn) (url : string) (w : World) :
  t_imageUrl msg = Some url -> node_at E w url = Absent ->
  formatMessage E msg w
  = (Ok (mkContent (modelRole (t_role msg)) [TextPart (t_content msg)]), w).
Proof.
  intros Hu Hn. unfold formatMessage, bind, existsSync. rewrite Hu.
  destruct (url =? EmptyString); simpl; [reflexivity|]. now rewrite Hn.
Qed.

(** An entry is produced for every turn whose image is absent, missing on
    disk or readable; the world is left as it was. *)
Lemma formatMessage_succeeds (E : Env) (msg : Turn) (w : World) :
  (forall url, t_imageUrl msg = Some url -> url <> EmptyString ->
               node_at E w url <> Directory) ->
  exists c, formatMessage E msg w = (Ok c, w)
            /\ (forall url, t_imageUrl msg = Some url -> node_at E w url = Absent ->
                  c_parts c = [TextPart (t_content msg)]).
Proof.
  intros Hd. destruct (t_imageUrl msg) as [url|] eqn:Hu.
  - specialize (Hd url eq_refl).
    unfold formatMessage, bind, existsSync, readFileSync. rewrite Hu.
    destruct (url =? EmptyString) eqn:He; simpl.
    + eexists. split; [reflexivity|]. reflexivity.
    + apply String.eqb_neq in He. specialize (Hd He).
      destruct (node_at E w url) eqn:Hn; [| |congruence]; simpl; rewrite ?Hn.
      * eexists. split; [reflexivity|]. reflexivity.
      * eexists. split; [reflexivity|]. intros url' Heq Habs.
        inversion Heq; subst url'. congruence.
  - unfold formatMessage. rewrite Hu. eexists. split; [reflexivity|]. discriminate.
Qed.

(** C5. For every sequence of turns handed to the history assembler:
    whenever the assembly returns, its entries carry, in order, the role
    "model" for an assistant turn and "user" for any other; a turn whose
    [imageUrl] names a file that is not on disk yields, without an error, an
    entry with the text part alone; and when no referenced path is
    unreadable the whole assembly returns without an error, with the text
    part alone for every turn whose file is missing. *)
Theorem history_roles_and_missing_images (E : Env) (msgs : list Turn) (w : World) :
  (forall out w', formatMessages E msgs w = (Ok out, w') ->
     Forall2 (fun msg c =>
                (t_role msg = "assistant" -> c_role c = "model")
                /\ (t_role msg <> "assistant" -> c_role c = "user")) msgs out)
  /\ (forall msg url,
        t_imageUrl msg = Some url -> node_at E w url = Absent ->
        formatMessage E msg w
        = (Ok (mkContent (if t_role msg =? "assistant" then "model" else "user")
                 [TextPart (t_content msg)]), w))
  /\ ((forall msg url, In msg msgs -> t_imageUrl msg = Some url ->
                       url <> EmptyString -> node_at E w url <> Directory) ->
      exists out,
        formatMessages E msgs w = (Ok out, w)
        /\ Forall2 (fun msg c =>
                      forall url, t_imageUrl msg = Some url ->
                                  node_at E w url = Absent ->
                                  c_parts c = [TextPart (t_content msg)]) msgs out).
Proof.
  split; [|split].
  - revert w. unfold formatMessages.
    induction msgs as [|msg r IH]; intros w out w' H.
    + inversion H. constructor.
    + cbn [mapM] in H. unfold bind in H.
      destruct (formatMessage E msg w) as [[c|e] w1] eqn:Hc; [|discriminate].
      destruct (mapM (formatMessage E) r w1) as [[cs|e] w2] eqn:Hr; [|discriminate].
      inversion H; subst. constructor; [|eapply IH; eauto].
      apply formatMessage_role in Hc. rewrite Hc. apply modelRole_cases.
  - intros msg url Hu Hn. now apply (formatMessage_missing E msg url).
  - unfold formatMessages. induction msgs as [|msg r IH]; intros Hd.
    + exists []. split; [reflexivity|constructor].
    + destruct (formatMessage_succeeds E msg w) as [c [Hc Hp]].
      { intros url Hu Hne. apply (Hd msg url); [now left|exact Hu|exact Hne]. }
      destruct IH as [cs [Hcs Hps]].
      { intros m url Hin. apply (Hd m url). now right. }
      exists (c :: cs). split; [|now constructor].
      cbn [mapM]. unfold bind. now rewrite Hc, Hcs.
Qed.

Lemma formatMessages_world (E : Env) (msgs : list Turn) (w : World) :
  snd (formatMessages E msgs w) = w.
Proof.
  unfold formatMessages. induction msgs as [|msg r IH]; [reflexivity|].
  cbn [mapM]. unfold bind.
  pose proof (formatMessage_world E msg w) as Hw.
  destruct (formatMessage E msg w) as [[c|e] w1]; simpl in Hw; subst w1; [|reflexivity].
  destruct (mapM (formatMessage E) r w) as [[cs|e] w2]; simpl in IH; subst w2; reflexivity.
Qed.

(** ** Validation *)

Lemma zString_ok (name : string) (lo : nat) (hi : option nat) (s : string) :
  lo <= String.length s ->
  (forall h, hi = Some h -> String.length s <= h) ->
  zString name lo hi (JString s) = inr s.
Proof.
  intros Hlo Hhi. unfold zString.
  apply Nat.ltb_ge in Hlo. rewrite Hlo.
  destruct hi as [h|]; [|reflexivity].
  specialize (Hhi h eq_refl). apply Nat.ltb_ge in Hhi. now rewrite Hhi.
Qed.

Lemma zString_inv (name : string) (lo : nat) (hi : option nat) (v : JsValue) (s : string) :
  zString name lo hi v = inr s ->
  v = JString s /\ lo <= String.length s
  /\ (forall h, hi = Some h -> String.length s <= h).
Proof.
  unfold zString. destruct v; try discriminate.
  destruct (Nat.ltb (String.length s0) lo) eqn:Hlo; [discriminate|].
  apply Nat.ltb_ge in Hlo.
  destruct hi as [h|].
  - destruct (Nat.ltb h (String.length s0)) eqn:Hhi; [discriminate|].
    apply Nat.ltb_ge in Hhi. simpl. intros H; inversion H; subst.
    repeat split; auto. intros h' Hh. now inversion Hh; subst.
  - simpl. intros H; inversion H; subst. repeat split; auto. discriminate.
Qed.

Lemma zParse2_ok (name : string) (hi : nat) (body : Body) (a s : string) (w : World) :
  body name = JString a -> body "sessionId" = JString s ->
  1 <= String.length a <= hi -> 1 <= String.length s ->
  zParse2 name hi body w = (Ok (a, s), w).
Proof.
  intros Ha Hs [La Ha'] Ls. unfold zParse2. rewrite Ha, Hs.
  rewrite (zString_ok name 1 (Some hi) a), (zString_ok "sessionId" 1 None s); auto.
  - discriminate.
  - intros h Hh. now inversion Hh; subst.
Qed.

Lemma zParse2_inv (name : string) (hi : nat) (body : Body) (a s : string) (w w' : World) :
  zParse2 name hi body w = (Ok (a, s), w') ->
  body name = JString a /\ body "sessionId" = JString s
  /\ 1 <= String.length a <= hi /\ 1 <= String.length s /\ w' = w.
Proof.
  unfold zParse2.
  destruct (zString name 1 (Some hi) (body name)) as [i|a'] eqn:Ha;
    destruct (zString "sessionId" 1 None (body "sessionId")) as [j|s'] eqn:Hs;
    try discriminate.
  intros H. inversion H; subst.
  apply zString_inv in Ha as (Ha1 & Ha2 & Ha3).
  apply zString_inv in Hs as (Hs1 & Hs2 & _).
  repeat split; auto.
Qed.

(** ** The text-message protocol *)

(** When the hosted model rejects the call, so does
    [generateChatResponseWithHistory], whatever the history. *)
Lemma chat_model_rejects (E : Env) (msgs : list Turn) (w : World) :
  (forall rq, exists e, hostedModel E (length (apiLog w)) rq = ApiRejects e) ->
  fst (generateChatResponseWithHistory E msgs w)
  = Throw (JsError "Failed to generate response from Gemini API").
Proof.
  intros Hrej. unfold generateChatResponseWithHistory, try_catch, bind.
  pose proof (formatMessages_world E msgs w) as Hw.
  destruct (formatMessages E msgs w) as [[fm|e] w1]; simpl in Hw; subst w1;
    [|reflexivity].
  unfold generateContent.
  destruct (Hrej (mkRequest "gemini-2.5-flash" (ContentsTurns fm) [])) as [e He].
  now rewrite He.
Qed.

Lemma listed_after_append (sid : string) (store : MemStorage.t) (k : string) (m : Message) :
  sessionId m = sid ->
  length (MemStorage.getMessagesBySessionId sid (store ++ [(k, m)])%list)
  = S (length (MemStorage.getMessagesBySessionId sid store)).
Proof.
  intros Hs. rewrite !StoreFacts.listed_length.
  unfold JsMap.values. rewrite map_app, filter_app, length_app. simpl.
  unfold MemStorage.bySession. rewrite Hs, String.eqb_refl. simpl. lia.
Qed.

(** C2. In the text-message protocol, when the request is valid, the drawn
    id is new to the store and the hosted model rejects the call, the
    response is an error, the store is the store as it was followed by the
    user's message and nothing else (so no assistant message), and the
    session lists exactly one message more. *)
Theorem chat_failure_keeps_user_message
    (E : Env) (body : Body) (w : World) (message sid : string) :
  body "message" = JString message -> body "sessionId" = JString sid ->
  1 <= String.length message <= 2000 -> 1 <= String.length sid ->
  JsMap.has (randomUUID E (uuidDraws w)) (messages w) = false ->
  (forall rq, exists e, hostedModel E (length (apiLog w)) rq = ApiRejects e) ->
  let user := created E (mkInsert message "user" sid None None) w in
  let out := post_chat E body w in
  fst out = ResStatus 500 "Failed to generate response from Gemini API"
  /\ messages (snd out) = (messages w ++ [(id user, user)])%list
  /\ role user = "user" /\ content user = message /\ sessionId user = sid
  /\ JsMap.get (id user) (messages (snd out)) = Some user
  /\ (forall m, In m (JsMap.values (messages (snd out))) -> role m = "assistant" ->
        In m (JsMap.values (messages w)))
  /\ length (MemStorage.getMessagesBySessionId sid (messages (snd out)))
     = S (length (MemStorage.getMessagesBySessionId sid (messages w))).
Proof.
  intros Hm Hs Lm Ls Hfresh Hrej user out.
  assert (Hout : out = (ResStatus 500 "Failed to generate response from Gemini API",
                        snd out)
                 /\ messages (snd out) = JsMap.set (id user) user (messages w)).
  { subst out. unfold post_chat, route, try_catch, bind, chatRequestSchema_parse.
    rewrite (zParse2_ok "message" 2000 body message sid w Hm Hs Lm Ls).
    rewrite createMessage_run. unfold getMessagesBySessionId.
    match goal with
    | |- context [generateChatResponseWithHistory E ?h ?w1] =>
        pose proof (chat_model_rejects E h w1 Hrej) as Hg;
        pose proof (keeps_generateChatResponseWithHistory E h w1) as (Hk & _);
        destruct (generateChatResponseWithHistory E h w1) as [r w2]
    end.
    simpl in Hg, Hk. subst r. simpl. split; [reflexivity|exact Hk]. }
  destruct Hout as [Hout Hstore].
  rewrite (JsMapFacts.set_fresh _ _ _ Hfresh) in Hstore.
  split; [now rewrite Hout|]. split; [exact Hstore|].
  split; [reflexivity|]. split; [reflexivity|]. split; [reflexivity|].
  split; [|split].
  - rewrite Hstore. rewrite <- (JsMapFacts.set_fresh _ _ _ Hfresh).
    apply JsMapFacts.get_set_same.
  - intros m Hin Hr. rewrite Hstore in Hin. unfold JsMap.values in Hin.
    rewrite map_app in Hin. apply in_app_or in Hin as [Hin|[<-|[]]]; [exact Hin|].
    discriminate Hr.
  - rewrite Hstore. now apply listed_after_append.
Qed.

Lemma has_after_append {V} (k k' : string) (v : V) (m : JsMap.t V) :
  JsMap.has k m = false -> k' <> k -> JsMap.has k (m ++ [(k', v)])%list = false.
Proof.
  intros Hk Hne. apply JsMapFacts.has_false_iff.
  apply JsMapFacts.has_false_iff in Hk.
  unfold JsMap.keys in *. rewrite map_app. intros Hin.
  apply in_app_or in Hin as [Hin|[Hin|[]]]; [now apply Hk|].
  simpl in Hin. congruence.
Qed.

Lemma listed_only_new (sid : string) (store : MemStorage.t) (l : list (string * Message)) :
  MemStorage.getMessagesBySessionId sid store = [] ->
  MemStorage.getMessagesBySessionId sid (store ++ l)%list
  = MemStorage.getMessagesBySessionId sid l.
Proof.
  unfold MemStorage.getMessagesBySessionId. intros H.
  apply js_sort_nil_iff in H.
  unfold JsMap.values in *. now rewrite map_app, filter_app, H.
Qed.

(** A valid text message to a session without messages, answered by the
    model: the whole run. *)
Lemma chat_on_empty_session
    (E : Env) (body : Body) (w : World) (message sid : string) (reply : ApiResponse) :
  body "message" = JString message -> body "sessionId" = JString sid ->
  1 <= String.length message <= 2000 -> 1 <= String.length sid ->
  MemStorage.getMessagesBySessionId sid (messages w) = [] ->
  JsMap.has (randomUUID E (uuidDraws w)) (messages w) = false ->
  JsMap.has (randomUUID E (S (uuidDraws w))) (messages w) = false ->
  randomUUID E (uuidDraws w) <> randomUUID E (S (uuidDraws w)) ->
  hostedModel E (length (apiLog w))
    (mkRequest "gemini-2.5-flash"
       (ContentsTurns [mkContent "user" [TextPart message]]) [])
  = ApiResolves reply ->
  let request := mkRequest "gemini-2.5-flash"
                   (ContentsTurns [mkContent "user" [TextPart message]]) [] in
  let ins := mkInsert message "user" sid None None in
  let user := created E ins w in
  let assistant :=
    MemStorage.newMessage (randomUUID E (S (uuidDraws w)))
      (systemClock E (S (clockReads w)))
      (mkInsert (js_or (rs_text reply) fallbackReply) "assistant" sid None None) in
  map toTurn (MemStorage.getMessagesBySessionId sid (messages (afterCreate E ins w)))
  = [mkTurn "user" message None]
  /\ post_chat E body w
     = (ResPair user assistant,
        mkWorld (messages w ++ [(id user, user); (id assistant, assistant)])%list
                (fs w) (S (S (uuidDraws w))) (S (S (clockReads w)))
                (uploadsTaken w) (apiLog w ++ [request])%list).
Proof.
  intros Hm Hs Lm Ls Hempty Hf0 Hf1 Hne Hmodel request ins user assistant.
  assert (Hhist :
    MemStorage.getMessagesBySessionId sid (messages (afterCreate E ins w)) = [user]).
  { cbn [afterCreate messages]. rewrite (JsMapFacts.set_fresh _ _ _ Hf0).
    rewrite listed_only_new by exact Hempty.
    unfold MemStorage.getMessagesBySessionId, JsMap.values, MemStorage.bySession.
    cbn [map snd filter]. fold user.
    change (sessionId user) with sid. rewrite String.eqb_refl. reflexivity. }
  split; [now rewrite Hhist|].
  unfold post_chat, route, try_catch, bind at 1, chatRequestSchema_parse.
  rewrite (zParse2_ok "message" 2000 body message sid w Hm Hs Lm Ls).
  unfold bind at 1. rewrite createMessage_run. fold ins user.
  unfold bind at 1. unfold getMessagesBySessionId. rewrite Hhist.
  unfold bind at 1.
  assert (Hgen :
    generateChatResponseWithHistory E (map toTurn [user]) (afterCreate E ins w)
    = (Ok (js_or (rs_text reply) fallbackReply),
       mkWorld (messages (afterCreate E ins w)) (fs w) (S (uuidDraws w))
               (S (clockReads w)) (uploadsTaken w) (apiLog w ++ [request])%list)).
  { unfold generateChatResponseWithHistory, try_catch, bind, formatMessages.
    cbn [map toTurn mapM formatMessage t_imageUrl t_content t_role bind ret
         role content imageUrl user created MemStorage.newMessage ins
         ins_role ins_content ins_imageUrl js_or_null truthy].
    unfold bind, ret. cbn [String.eqb Ascii.eqb Bool.eqb].
    unfold generateContent. cbn [apiLog afterCreate].
    rewrite Hmodel. reflexivity. }
  rewrite Hgen. unfold bind. rewrite createMessage_run. unfold ret.
  f_equal. unfold afterCreate, created.
  cbn [messages fs uuidDraws clockReads uploadsTaken apiLog].
  fold assistant. f_equal.
  rewrite (JsMapFacts.set_fresh _ _ _ Hf0).
  rewrite JsMapFacts.set_fresh by (apply has_after_append; auto).
  rewrite <- app_assoc. reflexivity.
Qed.

(** C7. Scenario A. The body [{message: "Hi", sessionId: "s1"}] arrives while
    session [s1] has no message, the two ids drawn are new and distinct, the
    clock does not run backwards between the two messages, and the model
    answers. Then the history handed to the model call is the single turn
    (user, "Hi"), sent as one "user" entry with the text "Hi"; the response
    carries both messages; and session [s1] lists exactly the user message
    "Hi" followed by the assistant message holding the model's reply. *)
Theorem scenario_A_hi_on_empty_session
    (E : Env) (body : Body) (w : World) (reply : ApiResponse) :
  body "message" = JString "Hi" -> body "sessionId" = JString "s1" ->
  MemStorage.getMessagesBySessionId "s1" (messages w) = [] ->
  JsMap.has (randomUUID E (uuidDraws w)) (messages w) = false ->
  JsMap.has (randomUUID E (S (uuidDraws w))) (messages w) = false ->
  randomUUID E (uuidDraws w) <> randomUUID E (S (uuidDraws w)) ->
  (systemClock E (clockReads w) <= systemClock E (S (clockReads w)))%Z ->
  hostedModel E (length (apiLog w))
    (mkRequest "gemini-2.5-flash" (ContentsTurns [mkContent "user" [TextPart "Hi"]]) [])
  = ApiResolves reply ->
  let out := post_chat E body w in
  let afterUser := afterCreate E (mkInsert "Hi" "user" "s1" None None) w in
  exists user assistant,
    fst out = ResPair user assistant
    /\ map toTurn (MemStorage.getMessagesBySessionId "s1" (messages afterUser))
       = [mkTurn "user" "Hi" None]
    /\ apiLog (snd out)
       = (apiLog w ++
          [mkRequest "gemini-2.5-flash"
             (ContentsTurns [mkContent "user" [TextPart "Hi"]]) []])%list
    /\ MemStorage.getMessagesBySessionId "s1" (messages (snd out)) = [user; assistant]
    /\ role user = "user" /\ content user = "Hi"
    /\ role assistant = "assistant"
    /\ content assistant = js_or (rs_text reply) fallbackReply
    /\ (forall t, rs_text reply = Some t -> t <> EmptyString -> content assistant = t).
Proof.
  intros Hm Hs Hempty Hf0 Hf1 Hne Hclock Hmodel out afterUser.
  destruct (chat_on_empty_session E body w "Hi" "s1" reply) as [Hhist Hrun]; auto.
  { simpl. lia. }
  { simpl. lia. }
  subst out afterUser. rewrite Hrun. cbn [fst snd messages apiLog].
  do 2 eexists. split; [reflexivity|]. split; [exact Hhist|].
  split; [reflexivity|]. split.
  - rewrite listed_only_new by exact Hempty.
    unfold MemStorage.getMessagesBySessionId, JsMap.values, MemStorage.bySession.
    cbn [map snd filter sessionId created MemStorage.newMessage ins_sessionId].
    rewrite String.eqb_refl.
    cbn [js_sort sort_insert MemStorage.byTimestamp timestamp].
    match goal with
    | |- (if (?c <=? 0)%Z then _ else _) = _ =>
        assert (Hle : (c <=? 0)%Z = true)
          by (apply Z.leb_le; unfold MemStorage.byTimestamp; simpl; lia);
        now rewrite Hle
    end.
  - repeat split.
    intros t Ht Hne'. cbn [content MemStorage.newMessage ins_content].
    unfold js_or. rewrite Ht. apply String.eqb_neq in Hne'. now rewrite Hne'.
Qed.

(** ** The image-generation protocol *)

Lemma normalize_nonempty (p : string) : Path.normalize p <> EmptyString.
Proof.
  unfold Path.normalize.
  destruct (p =? EmptyString); [discriminate|].
  destruct (Path.normalizeString (negb (Path.isAbsolute p)) p =? EmptyString) eqn:Hq.
  - destruct (Path.isAbsolute p); [discriminate|].
    destruct (Path.endsWithSep p); discriminate.
  - apply String.eqb_neq in Hq.
    destruct (Path.isAbsolute p); [discriminate|].
    destruct (Path.endsWithSep p); [|exact Hq].
    destruct (Path.normalizeString _ p); [congruence|discriminate].
Qed.

Lemma join_nonempty (a b : string) : Path.join a b <> EmptyString.
Proof.
  unfold Path.join.
  destruct (a =? EmptyString), (b =? EmptyString);
    try apply normalize_nonempty; discriminate.
Qed.

Lemma js_or_null_some (s : string) : s <> EmptyString -> js_or_null (Some s) = Some s.
Proof.
  intros H. unfold js_or_null, truthy. apply String.eqb_neq in H. now rewrite H.
Qed.

(** C8. Whenever the image-generation protocol answers with both messages,
    the request held a prompt and a session id, the user message persisted by
    the invocation has the content "Generate an image: " followed by the
    prompt (so it contains the prompt), and the assistant message has the
    type "image_generation" and an [imageUrl] that is present and not empty;
    the assistant message is in the store under its id, and so is the user
    message when the two ids differ. *)
Theorem generated_image_messages
    (E : Env) (body : Body) (w w' : World) (u a : Message) :
  post_generate_image E body w = (ResPair u a, w') ->
  exists prompt sid url,
    body "prompt" = JString prompt /\ body "sessionId" = JString sid
    /\ content u = "Generate an image: " ++ prompt
    /\ contains (content u) prompt
    /\ role u = "user" /\ sessionId u = sid
    /\ role a = "assistant" /\ sessionId a = sid
    /\ messageType a = Some "image_generation"
    /\ imageUrl a = Some url /\ url <> EmptyString
    /\ JsMap.get (id a) (messages w') = Some a
    /\ (id u <> id a -> JsMap.get (id u) (messages w') = Some u).
Proof.
  unfold post_generate_image, route, try_catch, bind, imageGenerationSchema_parse.
  destruct (zParse2 "prompt" 1000 body w) as [[[p s]|e] w1] eqn:Hp;
    [|discriminate].
  apply zParse2_inv in Hp as (Hbp & Hbs & _ & _ & ->).
  rewrite createMessage_run. unfold date_now.
  destruct (generateImage E _ _ _) as [[[]|e] w3] eqn:Hg; [|discriminate].
  apply keeps_run in Hg; [|apply keeps_generateImage].
  destruct Hg as (Hm & _). cbn [messages afterCreate] in Hm.
  rewrite createMessage_run. unfold ret. intros H. inversion H; subst u a w'.
  clear H. exists p, s.
  eexists. split; [exact Hbp|]. split; [exact Hbs|].
  split; [reflexivity|]. split; [exists "Generate an image: ", EmptyString|].
  { cbn [content created MemStorage.newMessage ins_content].
    clear. induction p as [|c p IH]; [reflexivity|].
    simpl in *. congruence. }
  split; [reflexivity|]. split; [reflexivity|]. split; [reflexivity|].
  split; [reflexivity|]. split; [reflexivity|].
  split; [cbn [imageUrl created MemStorage.newMessage ins_imageUrl];
          apply js_or_null_some, join_nonempty|].
  split; [apply join_nonempty|].
  cbn [afterCreate messages]. split.
  - apply JsMapFacts.get_set_same.
  - intros Hne. rewrite JsMapFacts.get_set_other by (intros Heq; apply Hne; symmetry; exact Heq).
    rewrite Hm. apply JsMapFacts.get_set_same.
Qed.

(** ** Ties in the listing *)

Lemma Before_cons {A} (x y z : A) (l : list A) : Before x y l -> Before x y (z :: l).
Proof. intros (a & b & c & ->). now exists (z :: a), b, c. Qed.

Lemma Before_head {A} (x y : A) (l : list A) : In y l -> Before x y (x :: l).
Proof.
  intros Hin. apply in_split in Hin as (b & c & ->). now exists [], b, c.
Qed.

Lemma Before_inv {A} (x y z : A) (l : list A) :
  Before x y (z :: l) -> (z = x /\ In y l) \/ Before x y l.
Proof.
  intros (a & b & c & H). destruct a as [|z' a]; simpl in H; inversion H; subst.
  - left. split; [reflexivity|]. apply in_or_app. right. now left.
  - right. now exists a, b, c.
Qed.

Section Ties.
Context {A : Type} (cmp : A -> A -> Z).

Lemma sort_insert_keeps_before (x m1 m2 : A) (l : list A) :
  Before m1 m2 l -> Before m1 m2 (sort_insert cmp x l).
Proof.
  revert m1 m2. induction l as [|y r IH]; intros m1 m2 H; simpl.
  - destruct H as (a & b & c & H). destruct a; discriminate H.
  - destruct (cmp x y <=? 0)%Z; [now apply Before_cons|].
    apply Before_inv in H as [[-> Hin]|H].
    + apply Before_head.
      apply (Permutation_in _ (Permutation_sym (sort_insert_perm cmp x r))).
      now right.
    + apply Before_cons. now apply IH.
Qed.

Lemma sort_insert_goes_before (x m : A) (l : list A) :
  (cmp x m <= 0)%Z -> In m l -> Before x m (sort_insert cmp x l).
Proof.
  intros Hle. induction l as [|y r IH]; intros Hin; [destruct Hin|]. simpl.
  destruct (cmp x y <=? 0)%Z eqn:Hc; [now apply Before_head|].
  apply Z.leb_gt in Hc. destruct Hin as [->|Hin]; [lia|].
  apply Before_cons. now apply IH.
Qed.

Lemma js_sort_keeps_ties (m1 m2 : A) (l : list A) :
  (cmp m1 m2 <= 0)%Z -> Before m1 m2 l -> Before m1 m2 (js_sort cmp l).
Proof.
  intros Hle. induction l as [|x r IH]; intros H.
  - destruct H as (a & b & c & H). destruct a; discriminate H.
  - cbn [js_sort]. apply Before_inv in H as [[-> Hin]|H].
    + apply sort_insert_goes_before; [exact Hle|].
      now apply (Permutation_in _ (Permutation_sym (js_sort_perm cmp r))).
    + apply sort_insert_keeps_before. now apply IH.
Qed.
End Ties.

Lemma Before_filter {A} (f : A -> bool) (x y : A) (l : list A) :
  f x = true -> f y = true -> Before x y l -> Before x y (filter f l).
Proof.
  intros Hx Hy (a & b & c & ->).
  exists (filter f a), (filter f b), (filter f c).
  rewrite filter_app. cbn [filter]. rewrite Hx, filter_app. cbn [filter]. now rewrite Hy.
Qed.

(** C10. Messages of a session that carry the same timestamp are listed in
    the order in which the store iterates them: restricted to any one
    timestamp, the listing is the store's sequence of that session's messages
    restricted to that timestamp; and of two such messages the one the store
    holds first is listed first. The store iterates in creation order, since
    [createMessage] with a new id appends its message after all others. *)
Theorem equal_timestamps_keep_creation_order :
  (forall (store : MemStorage.t) (sid : string) (t : Z),
     filter (fun m => (timestamp m =? t)%Z)
            (MemStorage.getMessagesBySessionId sid store)
     = filter (fun m => (timestamp m =? t)%Z)
              (filter (fun m => sessionId m =? sid) (JsMap.values store)))
  /\ (forall (store : MemStorage.t) (sid : string) (m1 m2 : Message),
        sessionId m1 = sid -> sessionId m2 = sid -> timestamp m1 = timestamp m2 ->
        Before m1 m2 (JsMap.values store) ->
        Before m1 m2 (MemStorage.getMessagesBySessionId sid store))
  /\ (forall (E : Env) (ins : InsertMessage) (w : World),
        JsMap.has (randomUUID E (uuidDraws w)) (messages w) = false ->
        JsMap.values (messages (snd (createMessage E ins w)))
        = (JsMap.values (messages w) ++ [created E ins w])%list).
Proof.
  split; [|split].
  - intros store sid t. unfold MemStorage.getMessagesBySessionId.
    apply js_sort_stable. intros a b Ha Hb.
    apply Z.eqb_eq in Ha, Hb. unfold MemStorage.byTimestamp. lia.
  - intros store sid m1 m2 H1 H2 Ht Hb. unfold MemStorage.getMessagesBySessionId.
    apply js_sort_keeps_ties; [unfold MemStorage.byTimestamp; lia|].
    apply Before_filter; [| |exact Hb]; unfold MemStorage.bySession;
      now apply String.eqb_eq.
  - intros E ins w Hfresh. rewrite createMessage_run. cbn [snd afterCreate messages].
    rewrite (JsMapFacts.set_fresh _ _ _ Hfresh).
    unfold JsMap.values. now rewrite map_app.
Qed.

(** ** Paths *)

Module PathFacts.
Import Path.

Lemma split_nonempty (s : string) : split s <> [].
Proof.
  destruct s as [|c r]; simpl; [discriminate|].
  destruct (Ascii.eqb c sep); [discriminate|].
  destruct (split r); discriminate.
Qed.

Lemma split_plain (s : string) : hasSep s = false -> split s = [s].
Proof.
  induction s as [|c r IH]; simpl; [reflexivity|].
  intros H. apply orb_false_iff in H as [Hc Hr].
  rewrite Hc, (IH Hr). reflexivity.
Qed.

Lemma split_app (a b : string) :
  split (a ++ String sep b) = (split a ++ split b)%list.
Proof.
  induction a as [|c r IH]; simpl.
  - reflexivity.
  - destruct (Ascii.eqb c sep); [now rewrite IH|].
    rewrite IH. destruct (split r) as [|h t] eqn:Hs; [|reflexivity].
    now apply split_nonempty in Hs.
Qed.

Lemma endsWithSep_app (a b : string) :
  b <> EmptyString -> endsWithSep (a ++ b) = endsWithSep b.
Proof.
  intros Hb. induction a as [|c r IH]; [reflexivity|].
  cbn [append endsWithSep]. rewrite IH.
  destruct (r ++ b) eqn:Hrb; [|reflexivity].
  destruct r; [simpl in Hrb; congruence|discriminate Hrb].
Qed.

Lemma endsWithSep_plain (s : string) : hasSep s = false -> endsWithSep s = false.
Proof.
  induction s as [|c r IH]; [reflexivity|]. simpl.
  intros H. apply orb_false_iff in H as [Hc Hr].
  destruct r; [exact Hc|now apply IH].
Qed.

Lemma isPrefix_app (l a b : list string) :
  isPrefix (l ++ a) (l ++ b) = isPrefix a b.
Proof.
  induction l as [|x l IH]; [reflexivity|]. simpl. now rewrite String.eqb_refl.
Qed.

Lemma step_plain (allow : bool) (stack : list string) (name : string) :
  plainName name = true -> step allow stack name = name :: stack.
Proof.
  unfold plainName, step. intros H.
  apply andb_true_iff in H as [H _].
  apply andb_true_iff in H as [H H3]. apply andb_true_iff in H as [H1 H2].
  apply negb_true_iff in H1, H2, H3. now rewrite H1, H2, H3.
Qed.

Lemma plain_no_sep (name : string) : plainName name = true -> hasSep name = false.
Proof.
  unfold plainName. intros H. apply andb_true_iff in H as [_ H].
  now apply negb_true_iff in H.
Qed.

Lemma plain_nonempty (name : string) : plainName name = true -> name <> EmptyString.
Proof. intros H ->. discriminate H. Qed.

(** Joining a plain name onto [uploads] only appends it. *)
Lemma join_uploads_plain (name : string) :
  plainName name = true -> join "uploads" name = "uploads/" ++ name.
Proof.
  intros Hp. pose proof (plain_no_sep name Hp) as Hs.
  pose proof (plain_nonempty name Hp) as Hne.
  unfold join. apply String.eqb_neq in Hne. rewrite Hne.
  change ("uploads" =? EmptyString) with false. cbv iota.
  unfold normalize.
  change (("uploads" ++ "/" ++ name) =? EmptyString) with false. cbv iota.
  change (isAbsolute ("uploads" ++ "/" ++ name)) with false. cbv zeta.
  assert (Hq : normalizeString true ("uploads" ++ "/" ++ name) = "uploads/" ++ name).
  { unfold normalizeString, normalizeSegments.
    change ("uploads" ++ "/" ++ name) with ("uploads" ++ String sep name).
    rewrite split_app, (split_plain name Hs).
    change (split "uploads") with ["uploads"].
    cbn [app fold_left]. change (step true [] "uploads") with ["uploads"].
    rewrite (step_plain true ["uploads"] name Hp). reflexivity. }
  cbn [negb]. rewrite Hq.
  change (("uploads/" ++ name) =? EmptyString) with false. cbv iota.
  replace (endsWithSep ("uploads" ++ "/" ++ name)) with false; [reflexivity|].
  symmetry. change ("uploads" ++ "/" ++ name) with ("uploads/" ++ name).
  rewrite endsWithSep_app by (now apply String.eqb_neq).
  now apply endsWithSep_plain.
Qed.

(** A plain name under [uploads] resolves inside the directory [uploads]. *)
Lemma plain_within_uploads (cwd name : string) :
  plainName name = true ->
  within cwd "uploads" (join "uploads" name) = true.
Proof.
  intros Hp. rewrite (join_uploads_plain name Hp).
  pose proof (plain_no_sep name Hp) as Hs.
  unfold within, resolveSegments.
  change (isAbsolute "uploads") with false.
  change (isAbsolute ("uploads/" ++ name)) with false.
  change ("uploads" =? EmptyString) with false.
  change (("uploads/" ++ name) =? EmptyString) with false. cbv iota.
  unfold normalizeSegments.
  change (cwd ++ "/" ++ "uploads/" ++ name)
    with (cwd ++ String sep ("uploads" ++ String sep name)).
  change (cwd ++ "/" ++ "uploads") with (cwd ++ String sep "uploads").
  rewrite !split_app, (split_plain name Hs).
  change (split "uploads") with ["uploads"].
  rewrite !fold_left_app. cbn [fold_left].
  set (stack := fold_left (step false) (split cwd) []).
  change (step false stack "uploads") with ("uploads" :: stack).
  rewrite (step_plain false ("uploads" :: stack) name Hp).
  cbn [rev]. rewrite <- app_assoc. cbn [app].
  rewrite isPrefix_app. reflexivity.
Qed.
End PathFacts.

(** ** Serving images *)

(** What the route does for a plain file name: 404 when nothing is stored
    under that name in [uploads], and otherwise a file inside [uploads]. *)
Lemma image_route_plain_names (E : Env) (name : string) (w : World) :
  plainName name = true ->
  (node_at E w (Path.join "uploads" name) = Absent ->
   get_image E name w = (ResStatus 404 "Image not found", w))
  /\ (forall p, fst (get_image E name w) = ResSendFile p ->
        p = Path.resolve (cwd E) (Path.join "uploads" name)
        /\ Path.within (cwd E) "uploads" (Path.join "uploads" name) = true).
Proof.
  intros Hp. unfold get_image, route, bind, existsSync. split.
  - intros Habs. now rewrite Habs.
  - intros p. destruct (node_at E w (Path.join "uploads" name)); simpl;
      intros H; inversion H; subst;
      (split; [reflexivity|now apply PathFacts.plain_within_uploads]).
Qed.

(** C6, at a failing input. With the working directory [/srv/app], the
    file name [../package.json] makes the route answer with the file
    [/srv/app/package.json], which exists and lies outside the managed
    directory [/srv/app/uploads]; the response is not 404 although nothing of
    that name is under the managed directory. *)
Theorem image_route_leaves_uploads :
  let E := Scenario.platform Scenario.rejecting Scenario.tick in
  let w := Scenario.start in
  Path.join "uploads" "../package.json" = "package.json"
  /\ fst (get_image E "../package.json" w) = ResSendFile "/srv/app/package.json"
  /\ fs w "/srv/app/package.json" = File "{ }"
  /\ Path.within (cwd E) "uploads" "/srv/app/package.json" = false
  /\ Path.resolve (cwd E) "uploads" = "/srv/app/uploads".
Proof. vm_compute. repeat split. Qed.

(** ** Names of generated images *)

Lemma to_uint_not_nil (p : positive) : Pos.to_uint p <> Decimal.Nil.
Proof.
  intros H. pose proof (DecimalPos.Unsigned.of_to p) as Hof.
  rewrite H in Hof. discriminate Hof.
Qed.

Lemma string_of_Z_inj (a b : Z) : string_of_Z a = string_of_Z b -> a = b.
Proof.
  unfold string_of_Z. intros H.
  assert (Hn : forall z, NilZero.int_of_string (NilZero.string_of_int (Z.to_int z))
                         = Some (Z.to_int z)).
  { intros z. apply NilZero.isi; destruct z; simpl; try discriminate;
      intros Heq; inversion Heq as [Hp]; now apply to_uint_not_nil in Hp. }
  apply DecimalZ.to_int_inj.
  pose proof (Hn a) as Ha. rewrite H, Hn in Ha. now inversion Ha.
Qed.

Lemma length_append (a b : string) :
  String.length (a ++ b) = String.length a + String.length b.
Proof. induction a as [|c a IH]; simpl; [reflexivity|now rewrite IH]. Qed.

Lemma append_inj_l (s a b : string) : a ++ s = b ++ s -> a = b.
Proof.
  revert b. induction a as [|c a IH]; intros [|d b] H; simpl in H.
  - reflexivity.
  - exfalso. apply (f_equal String.length) in H. simpl in H.
    rewrite length_append in H. lia.
  - exfalso. apply (f_equal String.length) in H. simpl in H.
    rewrite length_append in H. lia.
  - inversion H; subst. f_equal. now apply IH.
Qed.

(** What the naming scheme does achieve: invocations that read different
    values from the clock get different file names. *)
Lemma generated_names_differ (now1 now2 : Z) :
  now1 <> now2 ->
  "generated_" ++ string_of_Z now1 ++ ".jpg" <> "generated_" ++ string_of_Z now2 ++ ".jpg".
Proof.
  intros Hne H. apply Hne, string_of_Z_inj.
  simpl in H. inversion H as [H']. now apply append_inj_l in H'.
Qed.

(** C9, at a failing input. Two invocations that read the same value from
    the clock name the same file: both succeed, both assistant messages point
    to [uploads/generated_1700000000000.jpg], and the second invocation
    overwrites the image the first one wrote there. *)
Theorem generated_names_collide :
  let E := Scenario.platform Scenario.painting (fun _ => 1700000000000%Z) in
  let first := post_generate_image E (Scenario.promptBody "a red cube" "s2")
                 Scenario.start in
  let second := post_generate_image E (Scenario.promptBody "a blue ball" "s3")
                  (snd first) in
  exists u1 a1 u2 a2,
    fst first = ResPair u1 a1 /\ fst second = ResPair u2 a2
    /\ id a1 <> id a2
    /\ imageUrl a1 = Some "uploads/generated_1700000000000.jpg"
    /\ imageUrl a2 = Some "uploads/generated_1700000000000.jpg"
    /\ node_at E (snd first) "uploads/generated_1700000000000.jpg" = File "image0"
    /\ node_at E (snd second) "uploads/generated_1700000000000.jpg" = File "image1".
Proof.
  vm_compute. do 4 eexists.
  split; [reflexivity|]. split; [reflexivity|]. split; [discriminate|].
  repeat split.
Qed.

(** ** The properties at work on concrete runs *)

Lemma invocation_persists_user_then_assistant_witness :
  userThenAssistant JsMap.empty
    (post_chat (Scenario.platform Scenario.rejecting Scenario.tick)
       (Scenario.chatBody "Hi" "s1") Scenario.start).
Proof.
  exact (proj1 (invocation_persists_user_then_assistant
                  (Scenario.platform Scenario.rejecting Scenario.tick)
                  (TextMessage (Scenario.chatBody "Hi" "s1")) Scenario.start)).
Defined.

Lemma chat_failure_keeps_user_message_witness :
  let E := Scenario.platform Scenario.rejecting Scenario.tick in
  let out := post_chat E (Scenario.chatBody "Hi" "s1") Scenario.start in
  JsMap.has (randomUUID E 0) (messages Scenario.start) = false
  /\ fst out = ResStatus 500 "Failed to generate response from Gemini API"
  /\ length (MemStorage.getMessagesBySessionId "s1" (messages (snd out))) = 1.
Proof.
  intros E out. split; [reflexivity|].
  destruct (chat_failure_keeps_user_message E (Scenario.chatBody "Hi" "s1")
              Scenario.start "Hi" "s1")
    as (H1 & _ & _ & _ & _ & _ & _ & H8).
  - reflexivity.
  - reflexivity.
  - simpl. lia.
  - simpl. lia.
  - reflexivity.
  - intros rq. eexists. reflexivity.
  - split; [exact H1|exact H8].
Defined.

Lemma listBySession_exact_sorted_witness :
  MemStorage.getMessagesBySessionId "s1" Scenario.mixed
  = map snd [Scenario.message3 "k3" "s1" 20 "a"; Scenario.message3 "k4" "s1" 20 "b";
             Scenario.message3 "k1" "s1" 30 "c"]
  /\ StronglySorted (fun a b => (timestamp a <= timestamp b)%Z)
       (MemStorage.getMessagesBySessionId "s1" Scenario.mixed)
  /\ (forall m, In m (MemStorage.getMessagesBySessionId "s1" Scenario.mixed) ->
        sessionId m = "s1").
Proof.
  split; [reflexivity|].
  destruct (listBySession_exact_sorted Scenario.mixedWorld "s1")
    as (_ & _ & _ & Hsorted & Hsession & _).
  split; [exact Hsorted|exact Hsession].
Defined.

Lemma clearSession_exact_witness :
  JsMap.wf Scenario.mixed
  /\ MemStorage.clearMessagesBySessionId "s1" Scenario.mixed
     = [Scenario.message3 "k2" "s2" 10 "x"; Scenario.message3 "k5" "s2" 5 "y"]
  /\ MemStorage.getMessagesBySessionId "s1"
       (MemStorage.clearMessagesBySessionId "s1" Scenario.mixed) = []
  /\ MemStorage.getMessagesBySessionId "s2"
       (MemStorage.clearMessagesBySessionId "s1" Scenario.mixed)
     = MemStorage.getMessagesBySessionId "s2" Scenario.mixed.
Proof.
  assert (Hwf : JsMap.wf (messages Scenario.mixedWorld))
    by (apply JsMapFacts.wfb_wf; reflexivity).
  destruct (clearSession_exact Scenario.mixedWorld "s1" Hwf)
    as (_ & _ & _ & Hothers & _ & _ & Hempty).
  split; [exact Hwf|]. split; [reflexivity|]. split; [exact Hempty|].
  apply Hothers. discriminate.
Defined.

Lemma history_roles_and_missing_images_witness :
  let E := Scenario.platform Scenario.rejecting Scenario.tick in
  exists out,
    formatMessages E Scenario.turns Scenario.start = (Ok out, Scenario.start)
    /\ map c_role out = ["user"; "model"; "user"]
    /\ nth_error (map c_parts out) 0 = Some [TextPart "look at this"].
Proof.
  intros E.
  destruct (history_roles_and_missing_images E Scenario.turns Scenario.start)
    as (_ & _ & Hall).
  destruct Hall as (out & Hout & _).
  - intros msg url [<-|[<-|[<-|[]]]] Hu _; inversion Hu; subst url;
      vm_compute; discriminate.
  - exists out. split; [exact Hout|].
    vm_compute in Hout. inversion Hout. split; reflexivity.
Defined.

Lemma scenario_A_hi_on_empty_session_witness :
  let E := Scenario.platform (Scenario.replying "Hello") Scenario.tick in
  let out := post_chat E (Scenario.chatBody "Hi" "s1") Scenario.start in
  MemStorage.getMessagesBySessionId "s1" (messages Scenario.start) = []
  /\ exists user assistant,
       MemStorage.getMessagesBySessionId "s1" (messages (snd out)) = [user; assistant]
       /\ content user = "Hi" /\ content assistant = "Hello".
Proof.
  intros E out. split; [reflexivity|].
  destruct (scenario_A_hi_on_empty_session E (Scenario.chatBody "Hi" "s1")
              Scenario.start (mkResponse (Some "Hello") None))
    as (user & assistant & _ & _ & _ & Hlist & _ & Hu & _ & Ha & _).
  - reflexivity.
  - reflexivity.
  - reflexivity.
  - reflexivity.
  - reflexivity.
  - vm_compute. discriminate.
  - vm_compute. discriminate.
  - reflexivity.
  - exists user, assistant. split; [exact Hlist|]. split; [exact Hu|exact Ha].
Defined.

Lemma generated_image_messages_witness :
  let E := Scenario.platform Scenario.painting Scenario.tick in
  exists u a w',
    post_generate_image E (Scenario.promptBody "a red cube" "s2") Scenario.start
    = (ResPair u a, w')
    /\ contains (content u) "a red cube"
    /\ messageType a = Some "image_generation"
    /\ exists url, imageUrl a = Some url /\ url <> EmptyString.
Proof.
  intros E.
  assert (Hrun : exists u a w',
             post_generate_image E (Scenario.promptBody "a red cube" "s2")
               Scenario.start = (ResPair u a, w'))
    by (vm_compute; do 3 eexists; reflexivity).
  destruct Hrun as (u & a & w' & Hrun).
  destruct (generated_image_messages E _ _ _ _ _ Hrun)
    as (p & s & url & Hp & _ & _ & Hc & _ & _ & _ & _ & Ht & Hurl & Hne & _).
  vm_compute in Hp. inversion Hp; subst p.
  exists u, a, w'. split; [exact Hrun|]. split; [exact Hc|]. split; [exact Ht|].
  exists url. split; [exact Hurl|exact Hne].
Defined.

Lemma equal_timestamps_keep_creation_order_witness :
  filter (fun m => (timestamp m =? 20)%Z)
         (MemStorage.getMessagesBySessionId "s1" Scenario.mixed)
  = map snd [Scenario.message3 "k3" "s1" 20 "a"; Scenario.message3 "k4" "s1" 20 "b"]
  /\ Before (snd (Scenario.message3 "k3" "s1" 20 "a"))
            (snd (Scenario.message3 "k4" "s1" 20 "b"))
            (MemStorage.getMessagesBySessionId "s1" Scenario.mixed).
Proof.
  destruct equal_timestamps_keep_creation_order as (Hties & Hbefore & _).
  split.
  - rewrite Hties. reflexivity.
  - apply Hbefore; try reflexivity.
    exists [snd (Scenario.message3 "k1" "s1" 30 "c");
            snd (Scenario.message3 "k2" "s2" 10 "x")], [],
           [snd (Scenario.message3 "k5" "s2" 5 "y")].
    reflexivity.
Defined.

(* ===================================================================== *)
(** * Further properties of the server *)
(* ===================================================================== *)

(** ** Invariants along a computation *)

Lemma preserves_ret (P : World -> Prop) {A} (a : A) : preserves P (ret a).
Proof. intros w H. exact H. Qed.

Lemma preserves_throw (P : World -> Prop) {A} (e : Exn) : preserves P (@throw A e).
Proof. intros w H. exact H. Qed.

Lemma preserves_bind (P : World -> Prop) {A B} (c : M A) (k : A -> M B) :
  preserves P c -> (forall a, preserves P (k a)) -> preserves P (bind c k).
Proof.
  intros Hc Hk w H. unfold bind. specialize (Hc w H).
  destruct (c w) as [[a|e] w1]; simpl in Hc; [now apply Hk|exact Hc].
Qed.

Lemma preserves_try_catch (P : World -> Prop) {A} (c : M A) (h : Exn -> M A) :
  preserves P c -> (forall e, preserves P (h e)) -> preserves P (try_catch c h).
Proof.
  intros Hc Hh w H. unfold try_catch. specialize (Hc w H).
  destruct (c w) as [[a|e] w1]; simpl in Hc; [exact Hc|now apply Hh].
Qed.

Lemma preserves_keeps (P : World -> Prop) {A} (c : M A) :
  storeOnly P -> keeps c -> preserves P c.
Proof.
  intros Hs Hk w H. destruct (Hk w) as (H1 & H2 & H3). now apply (Hs w).
Qed.

Lemma keeps_getMessagesBySessionId (sid : string) : keeps (getMessagesBySessionId sid).
Proof. intros w. simpl. auto. Qed.

Lemma keeps_parse (name : string) (hi : nat) (body : Body) :
  keeps (zParse2 name hi body).
Proof. intros w. rewrite keeps_zParse2. auto. Qed.

Lemma route_snd (c : M Response) (w : World) : snd (route c w) = snd (c w).
Proof. unfold route. now destruct (c w) as [[r|e] w1]. Qed.

Lemma preserves_date_now (P : World -> Prop) (E : Env) :
  (forall w, P w ->
     P (mkWorld (messages w) (fs w) (uuidDraws w) (S (clockReads w))
                (uploadsTaken w) (apiLog w))) ->
  preserves P (date_now E).
Proof. intros H w Hw. now apply H. Qed.

Lemma preserves_createMessage (P : World -> Prop) (E : Env) (ins : InsertMessage) :
  (forall w, P w -> P (afterCreate E ins w)) -> preserves P (createMessage E ins).
Proof. intros H w Hw. rewrite createMessage_run. now apply H. Qed.

Lemma preserves_clear (P : World -> Prop) (sid : string) :
  (forall w, P w -> P (with_messages (MemStorage.clearMessagesBySessionId sid) w)) ->
  preserves P (clearMessagesBySessionId sid).
Proof. intros H w Hw. now apply H. Qed.

(** Walks through a handler: binds, handlers, case distinctions, then the
    store-preserving services and the three operations that change the store
    or the clock. *)
Ltac preserves_steps Hstore Hcreate Hclock Hclear :=
  repeat first
    [ apply preserves_createMessage; apply Hcreate
    | apply preserves_date_now; apply Hclock
    | apply preserves_clear; apply Hclear
    | apply (preserves_keeps _ _ Hstore);
      first [ apply keeps_generateChatResponseWithHistory
            | apply keeps_analyzeImage
            | apply keeps_generateImage
            | apply keeps_upload_single
            | apply keeps_getMessagesBySessionId
            | apply keeps_parse
            | apply keeps_existsSync ]
    | apply preserves_ret
    | apply preserves_throw
    | apply preserves_bind; [|intros ?]
    | apply preserves_try_catch; [|intros ?]
    | match goal with
      | |- preserves _ (match ?x with _ => _ end) => destruct x
      | |- preserves _ (if ?x then _ else _) => destruct x
      end ].

(** Every route hands on a property that the three store-changing
    operations hand on. *)
Lemma serve_preserves (P : World -> Prop) (E : Env) :
  storeOnly P ->
  (forall ins w, P w -> P (afterCreate E ins w)) ->
  (forall w, P w ->
     P (mkWorld (messages w) (fs w) (uuidDraws w) (S (clockReads w))
                (uploadsTaken w) (apiLog w))) ->
  (forall sid w, P w -> P (with_messages (MemStorage.clearMessagesBySessionId sid) w)) ->
  forall r w, P w -> P (snd (serve E r w)).
Proof.
  intros Hstore Hcreate Hclock Hclear r w Hw.
  destruct r as [body|sid|sid|req|body|filename]; unfold serve;
    [unfold post_chat, chatRequestSchema_parse
    |unfold get_chat
    |unfold delete_chat
    |unfold post_upload_image
    |unfold post_generate_image, imageGenerationSchema_parse
    |unfold get_image];
    rewrite route_snd;
    match goal with |- P (snd (?c w)) => cut (preserves P c); [intros Hp; now apply Hp|] end;
    cbv zeta;
    preserves_steps Hstore Hcreate Hclock Hclear.
Qed.

Lemma serveAll_preserves (P : World -> Prop) (E : Env) (rs : list Request) (w : World) :
  (forall r w, P w -> P (snd (serve E r w))) -> P w -> P (serveAll E rs w).
Proof.
  intros Hstep. unfold serveAll. revert w.
  induction rs as [|r rs IH]; intros w Hw; simpl; [exact Hw|].
  apply IH. now apply Hstep.
Qed.

(** ** The store across requests *)

Lemma keyed_set (m : Message) (store : MemStorage.t) :
  keyed store -> keyed (JsMap.set (id m) m store).
Proof.
  unfold keyed. induction store as [|[k v] r IH]; simpl; intros H.
  - repeat constructor.
  - inversion H as [|? ? Hk Hr]; subst. destruct (k =? id m) eqn:Hkm.
    + apply String.eqb_eq in Hkm. constructor; [simpl; congruence|exact Hr].
    + constructor; [exact Hk|now apply IH].
Qed.

Lemma keyed_filter (f : string * Message -> bool) (store : MemStorage.t) :
  keyed store -> keyed (filter f store).
Proof.
  unfold keyed. intros H. rewrite Forall_forall in *.
  intros e He. apply filter_In in He as [He _]. now apply H.
Qed.

Lemma get_in_wf {V} (k : string) (v : V) (m : JsMap.t V) :
  JsMap.wf m -> In (k, v) m -> JsMap.get k m = Some v.
Proof.
  unfold JsMap.wf, JsMap.keys. induction m as [|[k' v'] r IH]; simpl; [tauto|].
  intros Hwf [Heq|Hin].
  - inversion Heq; subst. now rewrite String.eqb_refl.
  - inversion Hwf as [|? ? Hn Hr]; subst. destruct (k' =? k) eqn:Hk.
    + apply String.eqb_eq in Hk. subst k'. exfalso. apply Hn.
      apply in_map_iff. now exists (k, v).
    + now apply IH.
Qed.

Lemma storeInv_storeOnly : storeOnly storeInv.
Proof. intros w w' Hm _ _. unfold storeInv. now rewrite Hm. Qed.

Lemma storeInv_create (E : Env) (ins : InsertMessage) (w : World) :
  storeInv w -> storeInv (afterCreate E ins w).
Proof.
  intros [Hwf Hk]. split; cbn [afterCreate messages].
  - now apply JsMapFacts.wf_set.
  - now apply (keyed_set (created E ins w)).
Qed.

Lemma storeInv_clear (sid : string) (w : World) :
  storeInv w -> storeInv (with_messages (MemStorage.clearMessagesBySessionId sid) w).
Proof.
  intros [Hwf Hk]. split; cbn [with_messages messages].
  - now apply StoreFacts.wf_clear.
  - unfold MemStorage.clearMessagesBySessionId. rewrite JsMapFacts.delete_all.
    now apply keyed_filter.
Qed.

(** X1. After any sequence of requests served from a world whose store is a
    well-formed map keyed by message id (the empty store is one), the store
    is again such a map: no two entries share a key, every entry sits under
    the id of its message, looking up the id of a stored message returns that
    message, and no two stored messages, of whatever sessions, share an
    id. *)
Theorem ids_stay_unique (E : Env) (rs : list Request) (w : World) :
  storeInv w ->
  let store := messages (serveAll E rs w) in
  JsMap.wf store /\ keyed store
  /\ (forall m, In m (JsMap.values store) -> JsMap.get (id m) store = Some m)
  /\ NoDup (map id (JsMap.values store)).
Proof.
  intros Hinv store.
  assert (H : storeInv (serveAll E rs w)).
  { apply serveAll_preserves; [|exact Hinv].
    apply serve_preserves.
    - exact storeInv_storeOnly.
    - intros ins w0. apply storeInv_create.
    - intros w0 [H1 H2]. now split.
    - intros sid w0. apply storeInv_clear. }
  destruct H as [Hwf Hk]. fold store in Hwf, Hk.
  split; [exact Hwf|]. split; [exact Hk|]. split.
  - intros m Hin. unfold JsMap.values in Hin.
    apply in_map_iff in Hin as [[k m'] [Heq Hin]]. simpl in Heq. subst m'.
    unfold keyed in Hk. rewrite Forall_forall in Hk.
    pose proof (Hk _ Hin) as Hid. simpl in Hid. rewrite Hid.
    now apply get_in_wf.
  - unfold JsMap.values. rewrite map_map.
    replace (map (fun e => id (snd e)) store) with (JsMap.keys store); [exact Hwf|].
    unfold JsMap.keys. apply map_ext_in. intros e He.
    unfold keyed in Hk. rewrite Forall_forall in Hk. symmetry. now apply Hk.
Qed.

Lemma ids_stay_unique_witness :
  let E := Scenario.platform (Scenario.replying "Hello") Scenario.tick in
  let rs := [PostChat (Scenario.chatBody "Hi" "s1");
             PostGenerateImage (Scenario.promptBody "a red cube" "s2");
             DeleteChat "s1"; PostChat (Scenario.chatBody "again" "s1")] in
  storeInv Scenario.start
  /\ JsMap.size (messages (serveAll E rs Scenario.start)) = 3
  /\ NoDup (map id (JsMap.values (messages (serveAll E rs Scenario.start)))).
Proof.
  intros E rs.
  assert (Hstart : storeInv Scenario.start) by (split; constructor).
  split; [exact Hstart|]. split; [reflexivity|].
  exact (proj2 (proj2 (proj2 (ids_stay_unique E rs Scenario.start Hstart)))).
Defined.

(** ** Creation order under a clock that does not run backwards *)

Lemma js_sort_of_sorted {A} (cmp : A -> A -> Z) (l : list A) :
  StronglySorted (fun a b => (cmp a b <= 0)%Z) l -> js_sort cmp l = l.
Proof.
  induction 1 as [|x r Hr IH Hx]; [reflexivity|].
  cbn [js_sort]. rewrite IH. destruct r as [|y r']; [reflexivity|].
  cbn [sort_insert]. inversion Hx as [|? ? Hxy _]; subst.
  apply Z.leb_le in Hxy. now rewrite Hxy.
Qed.

Lemma StronglySorted_filter_list {A} (R : A -> A -> Prop) (f : A -> bool) (l : list A) :
  StronglySorted R l -> StronglySorted R (filter f l).
Proof.
  induction 1 as [|x r Hr IH Hx]; simpl; [constructor|].
  destruct (f x); [|exact IH]. constructor; [exact IH|].
  rewrite Forall_forall in *. intros y Hy. apply filter_In in Hy as [Hy _]. now apply Hx.
Qed.

Lemma values_filter_sorted (R : Message -> Message -> Prop)
    (f : string * Message -> bool) (store : MemStorage.t) :
  StronglySorted R (JsMap.values store) -> StronglySorted R (JsMap.values (filter f store)).
Proof.
  unfold JsMap.values. induction store as [|e r IH]; simpl; intros H; [constructor|].
  inversion H as [|? ? Hr Hx]; subst. destruct (f e); simpl; [|now apply IH].
  constructor; [now apply IH|].
  rewrite Forall_forall in *. intros y Hy. apply Hx.
  apply in_map_iff in Hy as [e' [He' Hin]]. apply filter_In in Hin as [Hin _].
  apply in_map_iff. now exists e'.
Qed.

Lemma StronglySorted_snoc {A} (R : A -> A -> Prop) (l : list A) (x : A) :
  StronglySorted R l -> (forall y, In y l -> R y x) -> StronglySorted R (l ++ [x]).
Proof.
  induction 1 as [|y r Hr IH Hy]; intros Hx; simpl.
  - repeat constructor.
  - constructor; [apply IH; intros z Hz; apply Hx; now right|].
    apply Forall_app. split; [exact Hy|]. constructor; [|constructor].
    apply Hx. now left.
Qed.

(** In a store kept in order of timestamp the listing is the store's own
    sequence of the session's messages. *)
Lemma listing_of_chronological (sid : string) (store : MemStorage.t) :
  chronological store ->
  MemStorage.getMessagesBySessionId sid store
  = filter (MemStorage.bySession sid) (JsMap.values store).
Proof.
  intros H. unfold MemStorage.getMessagesBySessionId. apply js_sort_of_sorted.
  apply StronglySorted_filter_list.
  eapply StronglySorted_ind with (P := fun l => StronglySorted _ l);
    [constructor| |exact H].
  intros a l Hl IH Ha. constructor; [exact IH|].
  eapply Forall_impl; [|exact Ha]. unfold MemStorage.byTimestamp. intros; lia.
Qed.

Section MonotoneClock.
Variable E : Env.
Hypothesis uuid_injective : forall i j, randomUUID E i = randomUUID E j -> i = j.
Hypothesis clock_monotone : forall n, (systemClock E n <= systemClock E (S n))%Z.

Lemma timeInv_storeOnly : storeOnly (timeInv E).
Proof.
  intros w w' Hm Hu Hc. unfold timeInv. now rewrite Hm, Hu, Hc.
Qed.

Lemma timeInv_fresh (w : World) :
  timeInv E w -> JsMap.has (randomUUID E (uuidDraws w)) (messages w) = false.
Proof.
  intros (Hk & _ & _). apply JsMapFacts.has_false_iff. intros Hin.
  destruct (Hk _ Hin) as (j & Hj & Heq). apply uuid_injective in Heq. lia.
Qed.

Lemma timeInv_create (ins : InsertMessage) (w : World) :
  timeInv E w -> timeInv E (afterCreate E ins w).
Proof.
  intros Hinv. pose proof (timeInv_fresh w Hinv) as Hfresh.
  destruct Hinv as (Hk & Ht & Hc).
  unfold timeInv. cbn [afterCreate messages uuidDraws clockReads].
  rewrite (JsMapFacts.set_fresh _ _ _ Hfresh).
  unfold chronological, JsMap.keys, JsMap.values in *. rewrite !map_app. simpl.
  split; [|split].
  - intros k Hin. apply in_app_or in Hin as [Hin|[<-|[]]].
    + destruct (Hk k Hin) as (j & Hj & Heq). exists j. split; [lia|exact Heq].
    + exists (uuidDraws w). split; [lia|reflexivity].
  - intros m Hin. apply in_app_or in Hin as [Hin|[<-|[]]].
    + specialize (Ht m Hin). specialize (clock_monotone (clockReads w)). lia.
    + apply clock_monotone.
  - apply StronglySorted_snoc; [exact Hc|]. intros y Hy. now apply Ht.
Qed.

Lemma timeInv_clock (w : World) :
  timeInv E w ->
  timeInv E (mkWorld (messages w) (fs w) (uuidDraws w) (S (clockReads w))
                     (uploadsTaken w) (apiLog w)).
Proof.
  intros (Hk & Ht & Hc). unfold timeInv. cbn [messages uuidDraws clockReads].
  split; [exact Hk|]. split; [|exact Hc].
  intros m Hin. specialize (Ht m Hin). specialize (clock_monotone (clockReads w)). lia.
Qed.

Lemma timeInv_clear (sid : string) (w : World) :
  timeInv E w -> timeInv E (with_messages (MemStorage.clearMessagesBySessionId sid) w).
Proof.
  intros (Hk & Ht & Hc). unfold timeInv.
  cbn [with_messages messages uuidDraws clockReads].
  unfold MemStorage.clearMessagesBySessionId. rewrite JsMapFacts.delete_all.
  split; [|split].
  - intros k Hin. apply Hk. unfold JsMap.keys in *.
    apply in_map_iff in Hin as [e [He Hin]]. apply filter_In in Hin as [Hin _].
    apply in_map_iff. now exists e.
  - intros m Hin. apply Ht. unfold JsMap.values in *.
    apply in_map_iff in Hin as [e [He Hin]]. apply filter_In in Hin as [Hin _].
    apply in_map_iff. now exists e.
  - now apply values_filter_sorted.
Qed.

Lemma timeInv_serveAll (rs : list Request) (w : World) :
  timeInv E w -> timeInv E (serveAll E rs w).
Proof.
  apply serveAll_preserves. apply serve_preserves.
  - exact timeInv_storeOnly.
  - exact timeInv_create.
  - exact timeInv_clock.
  - exact timeInv_clear.
Qed.
End MonotoneClock.

(** X2. With a UUID source that never repeats and a clock that never runs
    backwards, after any sequence of requests served from an empty store the
    store holds its messages in non-decreasing order of timestamp, the next
    id to be drawn is new to it, and every session lists exactly as the
    store holds its messages, that is in the order in which they were
    created. *)
Theorem listing_is_creation_order (E : Env) (rs : list Request) (w : World) :
  (forall i j, randomUUID E i = randomUUID E j -> i = j) ->
  (forall n, (systemClock E n <= systemClock E (S n))%Z) ->
  messages w = [] ->
  let w' := serveAll E rs w in
  chronological (messages w')
  /\ JsMap.has (randomUUID E (uuidDraws w')) (messages w') = false
  /\ (forall sid,
        MemStorage.getMessagesBySessionId sid (messages w')
        = filter (fun m => sessionId m =? sid) (JsMap.values (messages w'))).
Proof.
  intros Hinj Hmono Hempty w'.
  assert (Hstart : timeInv E w).
  { unfold timeInv, chronological. rewrite Hempty. simpl.
    split; [intros k []|]. split; [intros m []|constructor]. }
  pose proof (timeInv_serveAll E Hinj Hmono rs w Hstart) as Hinv. fold w' in Hinv.
  split; [exact (proj2 (proj2 Hinv))|].
  split; [now apply timeInv_fresh|].
  intros sid. apply listing_of_chronological. exact (proj2 (proj2 Hinv)).
Qed.

Lemma uuidOf_injective (i j : nat) : Scenario.uuidOf i = Scenario.uuidOf j -> i = j.
Proof.
  unfold Scenario.uuidOf. intros H. simpl in H. inversion H as [H'].
  apply string_of_Z_inj in H'. now apply Nat2Z.inj.
Qed.

Lemma tick_monotone (n : nat) : (Scenario.tick n <= Scenario.tick (S n))%Z.
Proof. unfold Scenario.tick. lia. Qed.

Lemma listing_is_creation_order_witness :
  let E := Scenario.platform (Scenario.replying "Hello") Scenario.tick in
  let rs := [PostChat (Scenario.chatBody "Hi" "s1");
             PostChat (Scenario.chatBody "Hey" "s2");
             PostChat (Scenario.chatBody "again" "s1")] in
  let w' := serveAll E rs Scenario.start in
  map content (MemStorage.getMessagesBySessionId "s1" (messages w'))
  = ["Hi"; "Hello"; "again"; "Hello"]
  /\ MemStorage.getMessagesBySessionId "s1" (messages w')
     = filter (fun m => sessionId m =? "s1") (JsMap.values (messages w')).
Proof.
  intros E rs w'. split; [reflexivity|].
  destruct (listing_is_creation_order E rs Scenario.start) as (_ & _ & H).
  - exact uuidOf_injective.
  - exact tick_monotone.
  - reflexivity.
  - exact (H "s1").
Defined.

(** ** Clearing *)

Lemma filter_length_split {A} (f : A -> bool) (l : list A) :
  length (filter f l) + length (filter (fun x => negb (f x)) l) = length l.
Proof.
  induction l as [|x r IH]; simpl; [reflexivity|].
  destruct (f x); simpl; lia.
Qed.

Lemma filter_comm {A} (f g : A -> bool) (l : list A) :
  filter f (filter g l) = filter g (filter f l).
Proof.
  induction l as [|x r IH]; simpl; [reflexivity|].
  destruct (f x) eqn:Hf, (g x) eqn:Hg; simpl; rewrite ?Hf, ?Hg, IH; reflexivity.
Qed.

Lemma filter_values (sid : string) (store : MemStorage.t) :
  filter (MemStorage.bySession sid) (JsMap.values store)
  = JsMap.values (filter (fun e => MemStorage.bySession sid (snd e)) store).
Proof.
  unfold JsMap.values. induction store as [|e r IH]; simpl; [reflexivity|].
  destruct (MemStorage.bySession sid (snd e)); simpl; now rewrite IH.
Qed.

(** X3. In a well-formed store, clearing a session removes as many entries
    as the session lists, clearing two sessions gives the same store in
    either order, and a cleared store never holds an entry the store did not
    hold before. *)
Theorem clear_counts_and_commutes (store : MemStorage.t) (s1 s2 : string) :
  JsMap.wf store ->
  JsMap.size (MemStorage.clearMessagesBySessionId s1 store)
  + length (MemStorage.getMessagesBySessionId s1 store) = JsMap.size store
  /\ MemStorage.clearMessagesBySessionId s1 (MemStorage.clearMessagesBySessionId s2 store)
     = MemStorage.clearMessagesBySessionId s2 (MemStorage.clearMessagesBySessionId s1 store)
  /\ (forall e, In e (MemStorage.clearMessagesBySessionId s1 store) -> In e store).
Proof.
  intros Hwf.
  pose proof (StoreFacts.clear_is_filter s1 store Hwf) as H1.
  pose proof (StoreFacts.clear_is_filter s2 store Hwf) as H2.
  split; [|split].
  - rewrite H1, StoreFacts.listed_length, filter_values.
    unfold JsMap.size, JsMap.values. rewrite length_map.
    pose proof (filter_length_split (fun e => MemStorage.bySession s1 (snd e)) store).
    lia.
  - rewrite (StoreFacts.clear_is_filter s1) by (now apply StoreFacts.wf_clear).
    rewrite (StoreFacts.clear_is_filter s2 (MemStorage.clearMessagesBySessionId s1 store))
      by (now apply StoreFacts.wf_clear).
    rewrite H1, H2. apply filter_comm.
  - intros e He. rewrite H1 in He. now apply filter_In in He.
Qed.

Lemma clear_counts_and_commutes_witness :
  JsMap.wf Scenario.mixed
  /\ JsMap.size (MemStorage.clearMessagesBySessionId "s1" Scenario.mixed) + 3 = 5
  /\ MemStorage.clearMessagesBySessionId "s1"
       (MemStorage.clearMessagesBySessionId "s2" Scenario.mixed) = [].
Proof.
  assert (Hwf : JsMap.wf Scenario.mixed) by (apply JsMapFacts.wfb_wf; reflexivity).
  destruct (clear_counts_and_commutes Scenario.mixed "s1" "s2" Hwf) as (Hc & _ & _).
  split; [exact Hwf|]. split; [exact Hc|reflexivity].
Defined.

(** ** Creating a message *)

Lemma js_or_nonempty (o : option string) (d : string) :
  d <> EmptyString -> js_or o d <> EmptyString.
Proof.
  intros Hd. unfold js_or. destruct o as [s|]; [|exact Hd].
  destruct (s =? EmptyString) eqn:Hs; [exact Hd|now apply String.eqb_neq].
Qed.

Lemma js_or_null_not_empty (o : option string) : js_or_null o <> Some EmptyString.
Proof.
  unfold js_or_null, truthy. destruct o as [s|]; [|discriminate].
  destruct (s =? EmptyString) eqn:Hs; simpl; [discriminate|].
  apply String.eqb_neq in Hs. congruence.
Qed.

(** X4. [createMessage] with an id that is new to the store returns the
    stored record; the store is the old store followed by that record, so
    every older entry is untouched; looking the id up returns the record;
    the session of the record lists one message more, the old ones and the
    new one; every other session lists as before. The stored [imageUrl] is
    never the empty string and the stored [messageType] is never absent or
    empty, whatever the caller passed. *)
Theorem createMessage_stores_and_isolates (E : Env) (ins : InsertMessage) (w : World) :
  JsMap.has (randomUUID E (uuidDraws w)) (messages w) = false ->
  let m := created E ins w in
  let w' := snd (createMessage E ins w) in
  fst (createMessage E ins w) = Ok m
  /\ messages w' = (messages w ++ [(id m, m)])%list
  /\ JsMap.get (id m) (messages w') = Some m
  /\ (forall k, k <> id m -> JsMap.get k (messages w') = JsMap.get k (messages w))
  /\ Permutation (MemStorage.getMessagesBySessionId (ins_sessionId ins) (messages w'))
       (m :: MemStorage.getMessagesBySessionId (ins_sessionId ins) (messages w))
  /\ (forall sid, sid <> ins_sessionId ins ->
        MemStorage.getMessagesBySessionId sid (messages w')
        = MemStorage.getMessagesBySessionId sid (messages w))
  /\ imageUrl m <> Some EmptyString
  /\ (exists t, messageType m = Some t /\ t <> EmptyString).
Proof.
  intros Hfresh m w'. subst w'. rewrite createMessage_run.
  cbn [fst snd afterCreate messages]. fold m.
  change (randomUUID E (uuidDraws w)) with (id m) in *.
  split; [reflexivity|]. split; [now apply JsMapFacts.set_fresh|].
  split; [apply JsMapFacts.get_set_same|].
  split; [intros k Hk; apply JsMapFacts.get_set_other; congruence|].
  rewrite (JsMapFacts.set_fresh _ _ _ Hfresh).
  split; [|split; [|split]].
  - eapply perm_trans; [apply StoreFacts.listed_perm|].
    unfold JsMap.values. rewrite map_app, filter_app. simpl.
    unfold MemStorage.bySession at 2.
    change (sessionId m) with (ins_sessionId ins). rewrite String.eqb_refl.
    eapply perm_trans; [apply Permutation_app_comm|]. simpl.
    apply perm_skip, Permutation_sym, StoreFacts.listed_perm.
  - intros sid Hne. unfold MemStorage.getMessagesBySessionId, JsMap.values.
    rewrite map_app, filter_app. simpl. unfold MemStorage.bySession at 2.
    change (sessionId m) with (ins_sessionId ins).
    assert (Hf : (ins_sessionId ins =? sid) = false)
      by (apply String.eqb_neq; congruence).
    rewrite Hf. now rewrite app_nil_r.
  - apply js_or_null_not_empty.
  - eexists. split; [reflexivity|]. apply js_or_nonempty. discriminate.
Qed.

Lemma createMessage_stores_and_isolates_witness :
  let E := Scenario.platform Scenario.rejecting Scenario.tick in
  let ins := mkInsert "hello" "user" "s2" (Some EmptyString) (Some EmptyString) in
  let w' := snd (createMessage E ins Scenario.mixedWorld) in
  JsMap.has (randomUUID E 5) Scenario.mixed = false
  /\ MemStorage.getMessagesBySessionId "s1" (messages w')
     = MemStorage.getMessagesBySessionId "s1" Scenario.mixed
  /\ length (MemStorage.getMessagesBySessionId "s2" (messages w')) = 3.
Proof.
  intros E ins w'.
  destruct (createMessage_stores_and_isolates E ins Scenario.mixedWorld)
    as (_ & _ & _ & _ & _ & Hother & _ & _); [reflexivity|].
  split; [reflexivity|]. split; [|reflexivity].
  apply Hother. discriminate.
Defined.

(** ** Users *)

Lemma find_snoc {A} (f : A -> bool) (l : list A) (x : A) :
  find f (l ++ [x])
  = match find f l with
    | Some y => Some y
    | None => if f x then Some x else None
    end.
Proof.
  induction l as [|y r IH]; simpl; [reflexivity|].
  destruct (f y); [reflexivity|exact IH].
Qed.

(** X5. [createUser] stores the user under the drawn id with the name and
    the password as given; [getUser] of that id returns the user and every
    other id looks up as before. Names are not checked for uniqueness: with
    a new id, a user who already has the name remains the one
    [getUserByUsername] finds, and the new user is found by name only when
    nobody had the name; other names look up as before. [getUserByUsername]
    finds nothing exactly when no stored user has the name. *)
Theorem users_lookup (uuid : string) (iu : InsertUser) (users : MemUsers.t) :
  let user := fst (MemUsers.createUser uuid iu users) in
  let users' := snd (MemUsers.createUser uuid iu users) in
  user = mkUser uuid (iu_username iu) (iu_password iu)
  /\ MemUsers.getUser uuid users' = Some user
  /\ (forall k, k <> uuid -> MemUsers.getUser k users' = MemUsers.getUser k users)
  /\ (JsMap.has uuid users = false ->
      (forall old, MemUsers.getUserByUsername (iu_username iu) users = Some old ->
                   MemUsers.getUserByUsername (iu_username iu) users' = Some old)
      /\ (MemUsers.getUserByUsername (iu_username iu) users = None ->
          MemUsers.getUserByUsername (iu_username iu) users' = Some user)
      /\ (forall name, name <> iu_username iu ->
            MemUsers.getUserByUsername name users'
            = MemUsers.getUserByUsername name users))
  /\ (forall name, MemUsers.getUserByUsername name users = None
                   <-> forall u, In u (JsMap.values users) -> username u <> name).
Proof.
  intros user users'. subst user users'. unfold MemUsers.createUser. cbn [fst snd].
  split; [reflexivity|]. split; [apply JsMapFacts.get_set_same|].
  split; [intros k Hk; apply JsMapFacts.get_set_other; congruence|].
  split.
  - intros Hfresh. unfold MemUsers.getUserByUsername.
    rewrite (JsMapFacts.set_fresh _ _ _ Hfresh).
    unfold JsMap.values. rewrite map_app. simpl.
    split; [|split].
    + intros old Hold. rewrite find_snoc. now rewrite Hold.
    + intros Hnone. rewrite find_snoc, Hnone. simpl. now rewrite String.eqb_refl.
    + intros name Hne. rewrite find_snoc. simpl.
      assert (Hf : (iu_username iu =? name) = false)
        by (apply String.eqb_neq; congruence).
      rewrite Hf. now destruct (find _ _).
  - intros name. unfold MemUsers.getUserByUsername. split.
    + intros Hnone u Hin Heq.
      pose proof (find_none _ _ Hnone u Hin) as Hf. simpl in Hf.
      apply String.eqb_neq in Hf. contradiction.
    + intros Hall. destruct (find _ _) as [u|] eqn:Hf; [|reflexivity].
      apply find_some in Hf as [Hin Heq]. apply String.eqb_eq in Heq.
      now apply Hall in Hin.
Qed.

Lemma users_lookup_witness :
  let first := MemUsers.createUser "id-1" (mkInsertUser "ada" "pw1") JsMap.empty in
  let second := MemUsers.createUser "id-2" (mkInsertUser "ada" "pw2") (snd first) in
  JsMap.has "id-2" (snd first) = false
  /\ MemUsers.getUserByUsername "ada" (snd second) = Some (fst first)
  /\ MemUsers.getUser "id-2" (snd second) = Some (fst second).
Proof.
  intros first second.
  destruct (users_lookup "id-2" (mkInsertUser "ada" "pw2") (snd first))
    as (_ & Hget & _ & Hname & _).
  split; [reflexivity|]. split; [|exact Hget].
  destruct (Hname eq_refl) as (Hold & _ & _). apply Hold. reflexivity.
Defined.

(** ** Validation of the JSON routes *)




(** ** The upload route *)







(** ** Calls of the hosted model *)

Lemma sends_le {A} (n m : nat) (c : M A) : sends n c -> n <= m -> sends m c.
Proof. intros H Hle w. destruct (H w) as (l & Hl & Hn). exists l. split; [exact Hl|lia]. Qed.

Lemma silent_ret {A} (a : A) : sends 0 (ret a).
Proof. intros w. exists []. split; [now rewrite app_nil_r|reflexivity]. Qed.

Lemma silent_throw {A} (e : Exn) : sends 0 (@throw A e).
Proof. intros w. exists []. split; [now rewrite app_nil_r|reflexivity]. Qed.

Lemma sends_bind {A B} (n m : nat) (c : M A) (k : A -> M B) :
  sends n c -> (forall a, sends m (k a)) -> sends (n + m) (bind c k).
Proof.
  intros Hc Hk w. unfold bind. destruct (Hc w) as (l & Hl & Hn).
  destruct (c w) as [[a|e] w1]; simpl in Hl.
  - destruct (Hk a w1) as (l' & Hl' & Hm). exists (l ++ l')%list.
    rewrite Hl', Hl, app_assoc, length_app. split; [reflexivity|lia].
  - exists l. simpl. split; [exact Hl|lia].
Qed.

Lemma sends_try_catch {A} (n m : nat) (c : M A) (h : Exn -> M A) :
  sends n c -> (forall e, sends m (h e)) -> sends (n + m) (try_catch c h).
Proof.
  intros Hc Hh w. unfold try_catch. destruct (Hc w) as (l & Hl & Hn).
  destruct (c w) as [[a|e] w1]; simpl in Hl.
  - exists l. simpl. split; [exact Hl|lia].
  - destruct (Hh e w1) as (l' & Hl' & Hm). exists (l ++ l')%list.
    rewrite Hl', Hl, app_assoc, length_app. split; [reflexivity|lia].
Qed.

Lemma silent_bind {A B} (c : M A) (k : A -> M B) :
  sends 0 c -> (forall a, sends 0 (k a)) -> sends 0 (bind c k).
Proof. intros Hc Hk. exact (sends_bind 0 0 c k Hc Hk). Qed.

Lemma silent_try_catch {A} (c : M A) (h : Exn -> M A) :
  sends 0 c -> (forall e, sends 0 (h e)) -> sends 0 (try_catch c h).
Proof. intros Hc Hh. exact (sends_try_catch 0 0 c h Hc Hh). Qed.

Lemma once_bind_left {A B} (c : M A) (k : A -> M B) :
  sends 0 c -> (forall a, sends 1 (k a)) -> sends 1 (bind c k).
Proof. intros Hc Hk. exact (sends_bind 0 1 c k Hc Hk). Qed.

Lemma once_bind_right {A B} (c : M A) (k : A -> M B) :
  sends 1 c -> (forall a, sends 0 (k a)) -> sends 1 (bind c k).
Proof. intros Hc Hk. exact (sends_bind 1 0 c k Hc Hk). Qed.

Lemma once_try_catch {A} (c : M A) (h : Exn -> M A) :
  sends 1 c -> (forall e, sends 0 (h e)) -> sends 1 (try_catch c h).
Proof. intros Hc Hh. exact (sends_try_catch 1 0 c h Hc Hh). Qed.

Lemma silent_same_log {A} (c : M A) :
  (forall w, apiLog (snd (c w)) = apiLog w) -> sends 0 c.
Proof. intros H w. exists []. rewrite H. split; [now rewrite app_nil_r|reflexivity]. Qed.

Lemma silent_createMessage (E : Env) (ins : InsertMessage) : sends 0 (createMessage E ins).
Proof. apply silent_same_log. intros w. now rewrite createMessage_run. Qed.

Lemma silent_date_now (E : Env) : sends 0 (date_now E).
Proof. apply silent_same_log. reflexivity. Qed.

Lemma silent_multer_name (E : Env) : sends 0 (multer_name E).
Proof. apply silent_same_log. reflexivity. Qed.

Lemma silent_existsSync (E : Env) (p : string) : sends 0 (existsSync E p).
Proof. apply silent_same_log. reflexivity. Qed.

Lemma silent_readFileSync (E : Env) (p : string) : sends 0 (readFileSync E p).
Proof.
  apply silent_same_log. intros w. unfold readFileSync. now destruct (node_at E w p).
Qed.

Lemma silent_writeFileSync (E : Env) (p b : string) : sends 0 (writeFileSync E p b).
Proof.
  apply silent_same_log. intros w. unfold writeFileSync. now destruct (node_at E w p).
Qed.

Lemma silent_getMessages (sid : string) : sends 0 (getMessagesBySessionId sid).
Proof. apply silent_same_log. reflexivity. Qed.

Lemma silent_clear (sid : string) : sends 0 (clearMessagesBySessionId sid).
Proof. apply silent_same_log. reflexivity. Qed.

Lemma silent_parse (name : string) (hi : nat) (body : Body) : sends 0 (zParse2 name hi body).
Proof. apply silent_same_log. intros w. now rewrite keeps_zParse2. Qed.

Lemma silent_formatMessages (E : Env) (msgs : list Turn) : sends 0 (formatMessages E msgs).
Proof. apply silent_same_log. intros w. now rewrite formatMessages_world. Qed.

Lemma once_generateContent (E : Env) (rq : ApiRequest) : sends 1 (generateContent E rq).
Proof.
  intros w. exists [rq]. unfold generateContent.
  destruct (hostedModel E _ rq); simpl; auto.
Qed.

Ltac silent_steps :=
  repeat first
    [ apply silent_createMessage | apply silent_date_now | apply silent_multer_name
    | apply silent_existsSync | apply silent_readFileSync | apply silent_writeFileSync
    | apply silent_getMessages | apply silent_clear | apply silent_parse
    | apply silent_formatMessages | apply silent_ret | apply silent_throw
    | apply silent_bind; [|intros ?]
    | apply silent_try_catch; [|intros ?]
    | match goal with
      | |- sends 0 (match ?x with _ => _ end) => destruct x
      | |- sends 0 (if ?x then _ else _) => destruct x
      end ].

Lemma silent_upload_single (E : Env) (req : UploadRequest) : sends 0 (upload_single E req).
Proof. unfold upload_single. silent_steps. Qed.

Lemma once_generateChatResponseWithHistory (E : Env) (msgs : list Turn) :
  sends 1 (generateChatResponseWithHistory E msgs).
Proof.
  unfold generateChatResponseWithHistory.
  apply once_try_catch; [|intros e; apply silent_throw].
  apply once_bind_left; [apply silent_formatMessages|intros fm].
  apply once_bind_right; [apply once_generateContent|intros r; apply silent_ret].
Qed.

Lemma once_generateChatResponse (E : Env) (message : string) :
  sends 1 (generateChatResponse E message).
Proof.
  unfold generateChatResponse.
  apply once_try_catch; [|intros e; apply silent_throw].
  apply once_bind_right; [apply once_generateContent|intros r; apply silent_ret].
Qed.

Lemma once_analyzeImage (E : Env) (imagePath : string) (prompt : option string) :
  sends 1 (analyzeImage E imagePath prompt).
Proof.
  unfold analyzeImage.
  apply once_try_catch; [|intros e; apply silent_throw].
  apply once_bind_left; [apply silent_readFileSync|intros bytes].
  apply once_bind_right; [apply once_generateContent|intros r; apply silent_ret].
Qed.

Lemma once_generateImage (E : Env) (prompt outputPath : string) :
  sends 1 (generateImage E prompt outputPath).
Proof.
  unfold generateImage.
  apply once_try_catch; [|intros e; apply silent_throw].
  apply once_bind_right; [apply once_generateContent|intros r]. silent_steps.
Qed.

Lemma route_log (n : nat) (c : M Response) (w : World) :
  sends n c -> exists l, apiLog (snd (route c w)) = (apiLog w ++ l)%list /\ length l <= n.
Proof. intros H. rewrite route_snd. apply H. Qed.

(** X9. No route calls the hosted model more than once, and the routes that
    list, clear or serve an image never call it: the log of requests sent
    grows by at most one entry per request served, so a failed call is not
    retried. *)
Theorem one_model_call_per_request (E : Env) (r : Request) (w : World) :
  exists l,
    apiLog (snd (serve E r w)) = (apiLog w ++ l)%list
    /\ length l <= 1
    /\ match r with
       | GetChat _ | DeleteChat _ | GetImage _ => l = []
       | _ => True
       end.
Proof.
  destruct r as [body|sid|sid|req|body|filename]; unfold serve.
  - unfold post_chat.
    match goal with
    | |- context [route ?c w] => destruct (route_log 1 c w) as (l & Hl & Hn)
    end; [|exists l; auto].
    apply once_try_catch; [|intros e; apply silent_ret].
    apply once_bind_left; [apply silent_parse|intros [m s]].
    apply once_bind_left; [apply silent_createMessage|intros u].
    apply once_bind_left; [apply silent_getMessages|intros h].
    apply once_bind_right; [apply once_generateChatResponseWithHistory|intros t].
    silent_steps.
  - exists []. unfold get_chat. rewrite route_snd. simpl. rewrite app_nil_r. auto.
  - exists []. unfold delete_chat. rewrite route_snd. simpl. rewrite app_nil_r. auto.
  - unfold post_upload_image.
    match goal with
    | |- context [route ?c w] => destruct (route_log 1 c w) as (l & Hl & Hn)
    end; [|exists l; auto].
    apply once_bind_left; [apply silent_upload_single|intros file].
    apply once_try_catch; [|intros e; apply silent_ret].
    destruct file as [imagePath|]; [|apply (sends_le 0); [apply silent_ret|lia]].
    cbv zeta. destruct (up_fields req "sessionId") as [sid|];
      [|apply (sends_le 0); [apply silent_ret|lia]].
    destruct (sid =? EmptyString); [apply (sends_le 0); [apply silent_ret|lia]|].
    apply once_bind_left; [apply silent_createMessage|intros u].
    apply once_bind_right; [apply once_analyzeImage|intros t].
    silent_steps.
  - unfold post_generate_image.
    match goal with
    | |- context [route ?c w] => destruct (route_log 1 c w) as (l & Hl & Hn)
    end; [|exists l; auto].
    apply once_try_catch; [|intros e; apply silent_ret].
    apply once_bind_left; [apply silent_parse|intros [p s]].
    apply once_bind_left; [apply silent_createMessage|intros u].
    apply once_bind_left; [apply silent_date_now|intros now].
    apply once_bind_right; [apply once_generateImage|intros t].
    silent_steps.
  - unfold get_image.
    match goal with
    | |- context [route ?c w] => destruct (route_log 0 c w) as (l & Hl & Hn)
    end.
    + cbv zeta. silent_steps.
    + exists l. destruct l; [auto|simpl in Hn; lia].
Qed.

(** ** What the services return *)

Lemma try_catch_outcome {A} (c : M A) (msg : string) (P : A -> Prop) (w : World) :
  (forall a w', c w = (Ok a, w') -> P a) ->
  (exists a, fst (try_catch c (fun _ => throw (JsError msg)) w) = Ok a /\ P a)
  \/ fst (try_catch c (fun _ => throw (JsError msg)) w) = Throw (JsError msg).
Proof.
  intros H. unfold try_catch. destruct (c w) as [[a|e] w1] eqn:Hc.
  - left. exists a. split; [reflexivity|]. now apply (H a w1).
  - right. reflexivity.
Qed.

Lemma chat_service_outcome (E : Env) (msgs : list Turn) (w : World) :
  (exists s, fst (generateChatResponseWithHistory E msgs w) = Ok s /\ s <> EmptyString)
  \/ fst (generateChatResponseWithHistory E msgs w)
     = Throw (JsError "Failed to generate response from Gemini API").
Proof.
  unfold generateChatResponseWithHistory. apply try_catch_outcome.
  intros a w'. unfold bind.
  destruct (formatMessages E msgs w) as [[fm|e] w1]; [|discriminate].
  destruct (generateContent E _ w1) as [[r|e] w2]; [|discriminate].
  unfold ret. intros H. inversion H. apply js_or_nonempty. discriminate.
Qed.

Lemma single_service_outcome (E : Env) (message : string) (w : World) :
  (exists s, fst (generateChatResponse E message w) = Ok s /\ s <> EmptyString)
  \/ fst (generateChatResponse E message w)
     = Throw (JsError "Failed to generate response from Gemini API").
Proof.
  unfold generateChatResponse. apply try_catch_outcome.
  intros a w'. unfold bind.
  destruct (generateContent E _ w) as [[r|e] w2]; [|discriminate].
  unfold ret. intros H. inversion H. apply js_or_nonempty. discriminate.
Qed.

Lemma analysis_service_outcome (E : Env) (p : string) (prompt : option string) (w : World) :
  (exists s, fst (analyzeImage E p prompt w) = Ok s /\ s <> EmptyString)
  \/ fst (analyzeImage E p prompt w) = Throw (JsError "Failed to analyze image").
Proof.
  unfold analyzeImage. apply try_catch_outcome.
  intros a w'. unfold bind.
  destruct (readFileSync E p w) as [[b|e] w1]; [|discriminate].
  destruct (generateContent E _ w1) as [[r|e] w2]; [|discriminate].
  unfold ret. intros H. inversion H. apply js_or_nonempty. discriminate.
Qed.

Lemma image_service_outcome (E : Env) (prompt out : string) (w : World) :
  fst (generateImage E prompt out w) = Ok tt
  \/ fst (generateImage E prompt out w) = Throw (JsError "Failed to generate image").
Proof.
  unfold generateImage.
  destruct (try_catch_outcome
              (response <- generateContent E
                   (mkRequest "gemini-2.0-flash-preview-image-generation"
                      (ContentsTurns [mkContent "user" [TextPart prompt]])
                      ["TEXT"; "IMAGE"]) ;;
               match rs_candidates response with
               | None | Some [] => throw (JsError "No image generated")
               | Some (first :: _) =>
                   match cand_content first with
                   | None | Some None => throw (JsError "No image content generated")
                   | Some (Some parts) =>
                       match firstInlineData parts with
                       | Some data => writeFileSync E out (base64Decode E data)
                       | None => throw (JsError "No image data found in response")
                       end
                   end
               end)
              "Failed to generate image" (fun _ => True) w) as [(a & H & _)|H].
  - auto.
  - left. destruct a. exact H.
  - right. exact H.
Qed.

(** X10. The four services of gemini.ts never hand an upstream error on:
    whatever goes wrong inside, each throws its one fixed message. The three
    that return text never return the empty string, since an empty or absent
    text of the model is replaced by the fixed fallback. *)
Theorem service_outcomes (E : Env) (w : World) :
  (forall msgs,
     (exists s, fst (generateChatResponseWithHistory E msgs w) = Ok s /\ s <> EmptyString)
     \/ fst (generateChatResponseWithHistory E msgs w)
        = Throw (JsError "Failed to generate response from Gemini API"))
  /\ (forall message,
        (exists s, fst (generateChatResponse E message w) = Ok s /\ s <> EmptyString)
        \/ fst (generateChatResponse E message w)
           = Throw (JsError "Failed to generate response from Gemini API"))
  /\ (forall p prompt,
        (exists s, fst (analyzeImage E p prompt w) = Ok s /\ s <> EmptyString)
        \/ fst (analyzeImage E p prompt w) = Throw (JsError "Failed to analyze image"))
  /\ (forall prompt out,
        fst (generateImage E prompt out w) = Ok tt
        \/ fst (generateImage E prompt out w) = Throw (JsError "Failed to generate image")).
Proof.
  split; [|split; [|split]].
  - intros msgs. apply chat_service_outcome.
  - intros message. apply single_service_outcome.
  - intros p prompt. apply analysis_service_outcome.
  - intros prompt out. apply image_service_outcome.
Qed.


(** ** What image generation writes *)

Lemma firstInlineData_first (parts : list ResponsePart) (data : string) :
  firstInlineData parts = Some data ->
  data <> EmptyString
  /\ exists pre part post,
       parts = (pre ++ part :: post)%list
       /\ (exists d, rp_inlineData part = Some d /\ in_data d = Some data)
       /\ Forall (fun p => forall d, rp_inlineData p = Some d -> truthy (in_data d) = false)
            pre.
Proof.
  induction parts as [|part rest IH]; [discriminate|]. cbn [firstInlineData].
  destruct (rp_inlineData part) as [d|] eqn:Hd.
  - destruct (truthy (in_data d)) eqn:Ht.
    + intros Hdata. split.
      * unfold truthy in Ht. rewrite Hdata in Ht.
        apply negb_true_iff, String.eqb_neq in Ht. exact Ht.
      * exists [], part, rest. split; [reflexivity|]. split; [now exists d|constructor].
    + intros H. destruct (IH H) as (Hne & pre & p & post & Heq & Hp & Hpre).
      split; [exact Hne|]. exists (part :: pre), p, post.
      split; [now rewrite Heq|]. split; [exact Hp|].
      constructor; [|exact Hpre]. intros d' Hd'. congruence.
  - intros H. destruct (IH H) as (Hne & pre & p & post & Heq & Hp & Hpre).
    split; [exact Hne|]. exists (part :: pre), p, post.
    split; [now rewrite Heq|]. split; [exact Hp|].
    constructor; [|exact Hpre]. intros d' Hd'. congruence.
Qed.

(** One run of [generateImage], spelled out. *)
Lemma generateImage_run (E : Env) (prompt out : string) (w : World) :
  let run := generateImage E prompt out w in
  let request := mkRequest "gemini-2.0-flash-preview-image-generation"
                   (ContentsTurns [mkContent "user" [TextPart prompt]])
                   ["TEXT"; "IMAGE"] in
  apiLog (snd run) = (apiLog w ++ [request])%list
  /\ (forall e, fst run = Throw e -> fs (snd run) = fs w)
  /\ (fst run = Ok tt ->
      exists resp first rest parts data,
        hostedModel E (length (apiLog w)) request = ApiResolves resp
        /\ rs_candidates resp = Some (first :: rest)
        /\ cand_content first = Some (Some parts)
        /\ firstInlineData parts = Some data
        /\ data <> EmptyString
        /\ fs (snd run)
           = fs_update (Path.resolve (cwd E) out) (File (base64Decode E data)) (fs w)).
Proof.
  intros run request.
  remember run as r eqn:Hr. subst run.
  unfold generateImage, try_catch, bind, generateContent in Hr. fold request in Hr.
  destruct (hostedModel E (length (apiLog w)) request) as [resp|e0] eqn:Hm.
  - destruct (rs_candidates resp) as [[|first rest]|] eqn:Hc;
      try (subst r; cbn; repeat split; try discriminate; reflexivity).
    destruct (cand_content first) as [[parts|]|] eqn:Hp;
      try (subst r; cbn; repeat split; try discriminate; reflexivity).
    destruct (firstInlineData parts) as [data|] eqn:Hf;
      try (subst r; cbn; repeat split; try discriminate; reflexivity).
    unfold writeFileSync, node_at in Hr. cbn [fs] in Hr.
    pose proof (firstInlineData_first parts data Hf) as [Hne _].
    destruct (fs w (Path.resolve (cwd E) out)) eqn:Hn; subst r; cbn;
      (split; [reflexivity|]); (split; [try discriminate; reflexivity|]);
      try discriminate;
      intros _; exists resp, first, rest, parts, data; repeat split; auto.
  - subst r. cbn. repeat split; try discriminate; reflexivity.
Qed.

(** X12. [generateImage] sends exactly one request, with the prompt as the
    single user turn and both response modalities. When it throws, the disk
    is as it was. When it returns, the model resolved with a first candidate
    whose parts hold inline data, and the disk differs from before only at
    the output path, which now holds the decoded data of the first part that
    carries non-empty data: no part before it carries any, and the parts
    after it and the other candidates are ignored. *)
Theorem generateImage_writes_first_image (E : Env) (prompt out : string) (w : World) :
  let run := generateImage E prompt out w in
  let request := mkRequest "gemini-2.0-flash-preview-image-generation"
                   (ContentsTurns [mkContent "user" [TextPart prompt]])
                   ["TEXT"; "IMAGE"] in
  apiLog (snd run) = (apiLog w ++ [request])%list
  /\ (forall e, fst run = Throw e -> fs (snd run) = fs w)
  /\ (fst run = Ok tt ->
      exists resp first rest pre part post data,
        hostedModel E (length (apiLog w)) request = ApiResolves resp
        /\ rs_candidates resp = Some (first :: rest)
        /\ cand_content first = Some (Some (pre ++ part :: post)%list)
        /\ (exists d, rp_inlineData part = Some d /\ in_data d = Some data)
        /\ Forall (fun p => forall d, rp_inlineData p = Some d ->
                                     truthy (in_data d) = false) pre
        /\ data <> EmptyString
        /\ fs (snd run)
           = fs_update (Path.resolve (cwd E) out) (File (base64Decode E data)) (fs w)).
Proof.
  intros run request.
  destruct (generateImage_run E prompt out w) as (Hlog & Hthrow & Hok).
  split; [exact Hlog|]. split; [exact Hthrow|].
  intros Hrun.
  destruct (Hok Hrun) as (resp & first & rest & parts & data & Hm & Hc & Hp & Hf & Hne & Hfs).
  destruct (firstInlineData_first parts data Hf) as (_ & pre & part & post & Heq & Hd & Hpre).
  exists resp, first, rest, pre, part, post, data.
  rewrite <- Heq. repeat split; auto.
Qed.

(** ** From a stored image to the image route *)

Lemma hasSep_app (a b : string) : hasSep (a ++ b) = hasSep a || hasSep b.
Proof.
  induction a as [|c a IH]; simpl; [reflexivity|]. now rewrite IH, orb_assoc.
Qed.

Lemma hasSep_uint (d : Decimal.uint) : hasSep (NilEmpty.string_of_uint d) = false.
Proof. induction d; simpl; auto. Qed.

Lemma hasSep_string_of_Z (z : Z) : hasSep (string_of_Z z) = false.
Proof.
  unfold string_of_Z, NilZero.string_of_int, NilZero.string_of_uint.
  destruct (Z.to_int z) as [d|d]; destruct d; simpl; auto using hasSep_uint.
Qed.

Lemma generated_name_plain (now : Z) :
  plainName ("generated_" ++ string_of_Z now ++ ".jpg") = true.
Proof.
  unfold plainName.
  change ("generated_" ++ string_of_Z now ++ ".jpg")
    with (String "g" ("enerated_" ++ string_of_Z now ++ ".jpg")).
  cbn [String.eqb Ascii.eqb Bool.eqb negb andb].
  change (String "g" ("enerated_" ++ string_of_Z now ++ ".jpg"))
    with ("generated_" ++ (string_of_Z now ++ ".jpg")).
  rewrite !hasSep_app, hasSep_string_of_Z. reflexivity.
Qed.













(** ** The history sent with a text message *)

Lemma formatMessage_shape (E : Env) (msg : Turn) (w w' : World) (c : Content) :
  formatMessage E msg w = (Ok c, w') ->
  c_role c = modelRole (t_role msg)
  /\ hd_error (c_parts c) = Some (TextPart (t_content msg)).
Proof.
  unfold formatMessage, bind, existsSync, readFileSync, modelRole.
  destruct (t_imageUrl msg) as [url|];
    [destruct (url =? EmptyString); simpl;
     [|destruct (node_at E w url) eqn:Hn; simpl; rewrite ?Hn]|];
    simpl; intros H; inversion H; split; reflexivity.
Qed.

Lemma formatMessages_shape (E : Env) (history : list Message) (w w' : World)
    (cs : list Content) :
  formatMessages E (map toTurn history) w = (Ok cs, w') ->
  Forall2 (fun m c => c_role c = modelRole (role m)
                      /\ hd_error (c_parts c) = Some (TextPart (content m)))
          history cs.
Proof.
  unfold formatMessages. revert w cs.
  induction history as [|m r IH]; intros w cs H.
  - inversion H. constructor.
  - cbn [map mapM] in H. unfold bind in H.
    destruct (formatMessage E (toTurn m) w) as [[c|e] w1] eqn:Hc; [|discriminate].
    destruct (mapM (formatMessage E) (map toTurn r) w1) as [[cs'|e] w2] eqn:Hr;
      [|discriminate].
    inversion H; subst. constructor; [|eapply IH; eauto].
    apply formatMessage_shape in Hc. exact Hc.
Qed.

Lemma chat_service_run (E : Env) (msgs : list Turn) (w w' : World) (txt : string) :
  generateChatResponseWithHistory E msgs w = (Ok txt, w') ->
  exists cs,
    formatMessages E msgs w = (Ok cs, w)
    /\ apiLog w' = (apiLog w ++ [mkRequest "gemini-2.5-flash" (ContentsTurns cs) []])%list.
Proof.
  unfold generateChatResponseWithHistory, try_catch, bind.
  pose proof (formatMessages_world E msgs w) as Hw.
  destruct (formatMessages E msgs w) as [[cs|e] w1]; simpl in Hw; subst w1;
    [|discriminate].
  unfold generateContent. destruct (hostedModel E _ _); [|discriminate].
  unfold ret. intros H. inversion H. exists cs. split; reflexivity.
Qed.

Lemma in_values_set {V} (k : string) (v : V) (m : JsMap.t V) :
  In v (JsMap.values (JsMap.set k v m)).
Proof.
  unfold JsMap.values. induction m as [|[k' v'] r IH]; simpl; [now left|].
  destruct (k' =? k); simpl; [now left|now right].
Qed.

(** X16. Whenever the text-message protocol answers with both messages, it
    has sent the model exactly one request, whose entries are, in listing
    order, the messages of the user's session as stored right after the user
    message was persisted: one entry per message, with the mapped role and
    the message's content as first part. The new user message is among them
    and no message of another session is. *)
Theorem chat_history_is_the_session
    (E : Env) (body : Body) (w w' : World) (u a : Message) :
  post_chat E body w = (ResPair u a, w') ->
  let ins := mkInsert (content u) "user" (sessionId u) None None in
  let history :=
    MemStorage.getMessagesBySessionId (sessionId u) (messages (afterCreate E ins w)) in
  exists cs,
    apiLog w' = (apiLog w ++ [mkRequest "gemini-2.5-flash" (ContentsTurns cs) []])%list
    /\ Forall2 (fun m c => c_role c = modelRole (role m)
                           /\ hd_error (c_parts c) = Some (TextPart (content m)))
               history cs
    /\ In u history
    /\ (forall m, In m history -> sessionId m = sessionId u).
Proof.
  unfold post_chat, route, try_catch, bind, chatRequestSchema_parse.
  destruct (zParse2 "message" 2000 body w) as [[[m s]|e] w1] eqn:Hp; [|discriminate].
  apply zParse2_inv in Hp as (_ & _ & _ & _ & ->).
  rewrite createMessage_run. unfold getMessagesBySessionId.
  set (ins0 := mkInsert m "user" s None None).
  destruct (generateChatResponseWithHistory E _ _) as [[txt|e] w3] eqn:Hg;
    [|discriminate].
  apply chat_service_run in Hg as (cs & Hfm & Hlog).
  rewrite createMessage_run. unfold ret. intros H. inversion H; subst u a w'. clear H.
  cbn [content sessionId created MemStorage.newMessage ins0 ins_content ins_sessionId].
  fold ins0. exists cs. cbn [afterCreate apiLog] in *.
  split; [exact Hlog|]. split; [eapply formatMessages_shape; exact Hfm|].
  split.
  - apply StoreFacts.listed_in. split; [apply in_values_set|reflexivity].
  - intros m0 Hin. now apply StoreFacts.listed_in in Hin.
Qed.

Lemma chat_history_is_the_session_witness :
  let E := Scenario.platform (Scenario.replying "Hello") Scenario.tick in
  exists u a w',
    post_chat E (Scenario.chatBody "next" "s2") Scenario.mixedWorld = (ResPair u a, w')
    /\ exists cs,
         apiLog w' = [mkRequest "gemini-2.5-flash" (ContentsTurns cs) []]
         /\ length cs = 3.
Proof.
  intros E.
  assert (Hrun : exists u a w',
             post_chat E (Scenario.chatBody "next" "s2") Scenario.mixedWorld
             = (ResPair u a, w'))
    by (vm_compute; do 3 eexists; reflexivity).
  destruct Hrun as (u & a & w' & Hrun).
  destruct (chat_history_is_the_session E _ _ _ _ _ Hrun) as (cs & Hlog & _ & _ & _).
  exists u, a, w'. split; [exact Hrun|]. exists cs. split; [exact Hlog|].
  vm_compute in Hrun. inversion Hrun as [[Hu Ha Hw]]. rewrite <- Hw in Hlog.
  cbn [apiLog app] in Hlog. inversion Hlog. reflexivity.
Defined.

(** ** The client *)

Module ClientFacts.
Import Client.

Lemma trimStart_length (s : string) : String.length (trimStart s) <= String.length s.
Proof.
  induction s as [|c r IH]; simpl; [lia|]. destruct (isWhiteSpace c); simpl; lia.
Qed.

Lemma trimEnd_length (s : string) : String.length (trimEnd s) <= String.length s.
Proof.
  induction s as [|c r IH]; simpl; [lia|].
  destruct (trimEnd r); [destruct (isWhiteSpace c)|]; simpl in *; lia.
Qed.

Lemma trim_length (s : string) : String.length (trim s) <= String.length s.
Proof.
  unfold trim. pose proof (trimEnd_length (trimStart s)). pose proof (trimStart_length s).
  lia.
Qed.

Lemma trimStart_head (s : string) : headSpace (trimStart s) = false.
Proof.
  induction s as [|c r IH]; simpl; [reflexivity|].
  destruct (isWhiteSpace c) eqn:Hc; [exact IH|simpl; exact Hc].
Qed.

Lemma trimEnd_head (s : string) : headSpace s = false -> headSpace (trimEnd s) = false.
Proof.
  destruct s as [|c r]; simpl; [reflexivity|]. intros Hc.
  destruct (trimEnd r); [rewrite Hc|]; simpl; exact Hc.
Qed.

Lemma trimEnd_last (s : string) : lastSpace (trimEnd s) = false.
Proof.
  induction s as [|c r IH]; simpl; [reflexivity|].
  destruct (trimEnd r) as [|c' r'] eqn:Hr.
  - destruct (isWhiteSpace c) eqn:Hc; simpl; [reflexivity|exact Hc].
  - exact IH.
Qed.

Lemma trim_clean (s : string) :
  headSpace (trim s) = false /\ lastSpace (trim s) = false.
Proof.
  unfold trim. split; [apply trimEnd_head, trimStart_head|apply trimEnd_last].
Qed.

Lemma trimStart_fixed (s : string) : headSpace s = false -> trimStart s = s.
Proof. destruct s as [|c r]; simpl; [reflexivity|]. now intros ->. Qed.

Lemma trimEnd_fixed (s : string) : lastSpace s = false -> trimEnd s = s.
Proof.
  induction s as [|c r IH]; [reflexivity|]. intros H. cbn [trimEnd].
  destruct r as [|c' r'].
  - simpl in *. now rewrite H.
  - rewrite IH by exact H. reflexivity.
Qed.

Lemma trim_idempotent (s : string) : trim (trim s) = trim s.
Proof.
  destruct (trim_clean s) as [Hh Hl]. unfold trim at 1.
  rewrite trimStart_fixed by exact Hh. now apply trimEnd_fixed.
Qed.
End ClientFacts.

(** X17. What the chat page sends on "send". With no image selected it sends
    the trimmed message, and only when that is not empty and no send is
    pending: the text sent is never empty, never starts or ends with white
    space and is no longer than what was typed, and a message of white space
    alone sends nothing. Sent with a non-empty session id, a typed message of
    at most 2000 characters is accepted by the schema of the chat route. With
    an image selected and no upload pending it uploads the image with a text
    that is never empty: the trimmed message, or the fixed request to analyze
    the image. *)
Theorem send_message_is_trimmed
    (message sid : string) (uploadPending sendPending : bool) :
  (forall m,
     Client.handleSendMessage None message uploadPending sendPending = Some m ->
     sendPending = false
     /\ m = Client.SendMessage (Client.trim message)
     /\ Client.trim message <> EmptyString
     /\ Client.headSpace (Client.trim message) = false
     /\ Client.lastSpace (Client.trim message) = false
     /\ String.length (Client.trim message) <= String.length message
     /\ (String.length message <= 2000 -> sid <> EmptyString ->
         exists body, Client.requestOf sid m = PostChat body
                      /\ validBody "message" 2000 body))
  /\ (Client.trim message = EmptyString ->
      Client.handleSendMessage None message uploadPending sendPending = None)
  /\ (forall file,
        exists text,
          Client.handleSendMessage (Some file) message false sendPending
          = Some (Client.UploadImage file text)
          /\ text <> EmptyString
          /\ (text = Client.trim message \/ text = "Please analyze this image.")).
Proof.
  split; [|split].
  - intros m. unfold Client.handleSendMessage.
    destruct (Client.trim message =? EmptyString) eqn:Ht; [discriminate|].
    destruct sendPending; [discriminate|]. simpl. intros H. inversion H; subst m.
    apply String.eqb_neq in Ht.
    destruct (ClientFacts.trim_clean message) as [Hh Hl].
    pose proof (ClientFacts.trim_length message) as Hlen.
    repeat split; auto.
    intros Hmax Hsid. eexists. split; [reflexivity|].
    exists (Client.trim message), sid. cbn [String.eqb Ascii.eqb Bool.eqb].
    repeat split.
    + destruct (Client.trim message); [congruence|simpl; lia].
    + lia.
    + destruct sid; [congruence|simpl; lia].
  - intros Ht. unfold Client.handleSendMessage. now rewrite Ht.
  - intros file. unfold Client.handleSendMessage. eexists. split; [reflexivity|].
    split; [apply js_or_nonempty; discriminate|].
    unfold js_or. destruct (Client.trim message =? EmptyString); auto.
Qed.

Lemma send_message_is_trimmed_witness :
  Client.handleSendMessage None "  Hi there  " false false
  = Some (Client.SendMessage "Hi there")
  /\ exists body, Client.requestOf "s1" (Client.SendMessage "Hi there") = PostChat body
                  /\ validBody "message" 2000 body.
Proof.
  destruct (send_message_is_trimmed "  Hi there  " "s1" false false) as (H & _ & _).
  destruct (H (Client.SendMessage "Hi there") eq_refl)
    as (_ & _ & _ & _ & _ & _ & Hvalid).
  split; [reflexivity|]. apply Hvalid; [simpl; lia|discriminate].
Defined.

(** X18. The image-generation dialog calls [onGenerateImage] only while no
    generation is running and only with the trimmed prompt, which is then not
    empty, without white space at either end and no longer than the prompt;
    it then empties the prompt and closes, so that a second submission right
    after does nothing. When it does not call, its state is unchanged. A key
    press submits only for Enter without Shift. Passed on by the chat page
    with a non-empty session id, a prompt of at most 1000 characters (the
    limit of the text area) is accepted by the schema of the generation
    route. *)
Theorem dialog_submits_trimmed_prompt (isGenerating : bool) (d : Client.Dialog) :
  (forall arg d',
     Client.handleGenerate isGenerating d = (Some arg, d') ->
     isGenerating = false
     /\ arg = Client.trim (Client.prompt d)
     /\ arg <> EmptyString
     /\ Client.headSpace arg = false /\ Client.lastSpace arg = false
     /\ String.length arg <= String.length (Client.prompt d)
     /\ d' = Client.mkDialog EmptyString false
     /\ (forall again, Client.handleGenerate again d' = (None, d'))
     /\ (forall sid m,
           String.length (Client.prompt d) <= 1000 -> sid <> EmptyString ->
           Client.handleGenerateImage arg false = Some m ->
           exists body, Client.requestOf sid m = PostGenerateImage body
                        /\ validBody "prompt" 1000 body))
  /\ (forall d', Client.handleGenerate isGenerating d = (None, d') -> d' = d)
  /\ (forall key shiftKey prevented arg d',
        Client.handleKeyDown key shiftKey isGenerating d = (prevented, (Some arg, d')) ->
        key = "Enter" /\ shiftKey = false /\ prevented = true).
Proof.
  split; [|split].
  - intros arg d'. unfold Client.handleGenerate.
    destruct (Client.trim (Client.prompt d) =? EmptyString) eqn:Ht; [discriminate|].
    destruct isGenerating; [discriminate|]. simpl. intros H. inversion H; subst arg d'.
    apply String.eqb_neq in Ht.
    destruct (ClientFacts.trim_clean (Client.prompt d)) as [Hh Hl].
    pose proof (ClientFacts.trim_length (Client.prompt d)) as Hlen.
    repeat split; auto.
    intros sid m Hmax Hsid Hm. unfold Client.handleGenerateImage in Hm. simpl in Hm.
    inversion Hm; subst m. eexists. split; [reflexivity|].
    exists (Client.trim (Client.prompt d)), sid. cbn [String.eqb Ascii.eqb Bool.eqb].
    repeat split.
    + destruct (Client.trim (Client.prompt d)); [congruence|simpl; lia].
    + lia.
    + destruct sid; [congruence|simpl; lia].
  - intros d'. unfold Client.handleGenerate.
    destruct (negb _ && negb _); intros H; inversion H; reflexivity.
  - intros key shiftKey prevented arg d' Hk. unfold Client.handleKeyDown in Hk.
    destruct (key =? "Enter") eqn:He; [|discriminate].
    destruct shiftKey; [discriminate|]. apply String.eqb_eq in He.
    simpl in Hk. inversion Hk. auto.
Qed.

Lemma dialog_submits_trimmed_prompt_witness :
  Client.handleGenerate false (Client.mkDialog " a red cube " true)
  = (Some "a red cube", Client.mkDialog EmptyString false)
  /\ exists body,
       Client.requestOf "s2" (Client.GenerateImage "a red cube") = PostGenerateImage body
       /\ validBody "prompt" 1000 body.
Proof.
  destruct (dialog_submits_trimmed_prompt false (Client.mkDialog " a red cube " true))
    as (H & _ & _).
  destruct (H "a red cube" (Client.mkDialog EmptyString false) eq_refl)
    as (_ & _ & _ & _ & _ & _ & _ & _ & Hvalid).
  split; [reflexivity|].
  apply (Hvalid "s2" (Client.GenerateImage "a red cube")); [simpl; lia|discriminate|reflexivity].
Defined.

Lemma allowed_types_are_images (t : string) :
  includes allowedTypes t = true -> String.prefix "image/" t = true.
Proof.
  unfold includes, allowedTypes. cbn [existsb]. intros H.
  repeat (apply orb_true_iff in H as [H|H];
          [apply String.eqb_eq in H; subst t; reflexivity|]).
  discriminate H.
Qed.

(** X19. The type filters of client and server. Every type the server's
    upload filter accepts is a type a dropped file may have: the drop handler
    selects such a file. The file dialog selects any file; when its type is
    not one of the five the server accepts, the chat page still uploads it
    and the server refuses the request before the handler runs, leaving the
    world as it was, so nothing is persisted or written. *)
Theorem type_filters_of_client_and_server
    (E : Env) (file : Client.FileInfo) (message sid : string) (sendPending : bool)
    (w : World) :
  (includes allowedTypes (Client.file_type file) = true ->
   forall others, Client.handleDrop (file :: others) = Some file)
  /\ (includes allowedTypes (Client.file_type file) = false ->
      forall others,
        Client.handleFileSelect (Some (file :: others)) = Some file
        /\ exists text,
             Client.handleSendMessage (Some file) message false sendPending
             = Some (Client.UploadImage file text)
             /\ serve E (Client.requestOf sid (Client.UploadImage file text)) w
                = (ResUnhandled (JsError "Only image files are allowed"), w)).
Proof.
  split.
  - intros H others. unfold Client.handleDrop.
    now rewrite (allowed_types_are_images _ H).
  - intros H others. split; [reflexivity|].
    eexists. split; [reflexivity|].
    unfold serve, Client.requestOf, post_upload_image, route, bind, upload_single.
    cbn [up_image mimetype].
    destruct (Client.file_type file =? EmptyString); [reflexivity|].
    now rewrite H.
Qed.

Lemma type_filters_of_client_and_server_witness :
  let E := Scenario.platform (Scenario.replying "a cat") Scenario.tick in
  let pdf := Client.mkFile "notes.pdf" "application/pdf" "%PDF" in
  includes allowedTypes "application/pdf" = false
  /\ exists text,
       Client.handleSendMessage (Some pdf) EmptyString false false
       = Some (Client.UploadImage pdf text)
       /\ serve E (Client.requestOf "s1" (Client.UploadImage pdf text)) Scenario.start
          = (ResUnhandled (JsError "Only image files are allowed"), Scenario.start).
Proof.
  intros E pdf. split; [reflexivity|].
  destruct (type_filters_of_client_and_server E pdf EmptyString "s1" false Scenario.start)
    as (_ & H).
  destruct (H eq_refl []) as (_ & Hsend). exact Hsend.
Defined.

(** ** Images in the history *)

Lemma formatMessage_image (E : Env) (msg : Turn) (w w' : World) (c : Content) :
  formatMessage E msg w = (Ok c, w') ->
  forall url bytes,
    t_imageUrl msg = Some url -> url <> EmptyString -> node_at E w url = File bytes ->
    c_parts c = [TextPart (t_content msg);
                 InlineDataPart (base64Encode E bytes) "image/jpeg"].
Proof.
  intros H url bytes Hu Hne Hn. revert H.
  unfold formatMessage, bind, existsSync, readFileSync. rewrite Hu.
  apply String.eqb_neq in Hne. rewrite Hne. simpl. rewrite Hn. simpl. rewrite Hn.
  intros H. inversion H. reflexivity.
Qed.

Lemma formatMessages_images (E : Env) (history : list Message) (w w' : World)
    (cs : list Content) :
  formatMessages E (map toTurn history) w = (Ok cs, w') ->
  Forall2 (fun m c =>
             forall url bytes,
               imageUrl m = Some url -> url <> EmptyString ->
               node_at E w url = File bytes ->
               c_parts c = [TextPart (content m);
                            InlineDataPart (base64Encode E bytes) "image/jpeg"])
          history cs.
Proof.
  unfold formatMessages. revert cs.
  induction history as [|m r IH]; intros cs H.
  - inversion H. constructor.
  - cbn [map mapM] in H. unfold bind in H.
    pose proof (formatMessage_world E (toTurn m) w) as Hw.
    destruct (formatMessage E (toTurn m) w) as [[c|e] w1] eqn:Hc; [|discriminate].
    simpl in Hw. subst w1.
    destruct (mapM (formatMessage E) (map toTurn r) w) as [[cs'|e] w2] eqn:Hr;
      [|discriminate].
    inversion H; subst. constructor; [|now apply IH].
    intros url bytes Hu Hne Hn.
    exact (formatMessage_image E (toTurn m) w w c Hc url bytes Hu Hne Hn).
Qed.

(** X20. Whenever the text-message protocol answers with both messages, every
    message of the session whose [imageUrl] names a file that is on disk was
    sent to the model with two parts: its content, and the bytes of that
    file, base64-encoded and labelled image/jpeg whatever the file holds. So
    an image uploaded or generated earlier in the session travels again with
    every later text message for as long as its file exists. *)
Theorem chat_history_carries_images
    (E : Env) (body : Body) (w w' : World) (u a : Message) :
  post_chat E body w = (ResPair u a, w') ->
  let ins := mkInsert (content u) "user" (sessionId u) None None in
  let history :=
    MemStorage.getMessagesBySessionId (sessionId u) (messages (afterCreate E ins w)) in
  exists cs,
    apiLog w' = (apiLog w ++ [mkRequest "gemini-2.5-flash" (ContentsTurns cs) []])%list
    /\ Forall2 (fun m c =>
                  forall url bytes,
                    imageUrl m = Some url -> url <> EmptyString ->
                    node_at E w url = File bytes ->
                    c_parts c = [TextPart (content m);
                                 InlineDataPart (base64Encode E bytes) "image/jpeg"])
               history cs.
Proof.
  unfold post_chat, route, try_catch, bind, chatRequestSchema_parse.
  destruct (zParse2 "message" 2000 body w) as [[[m s]|e] w1] eqn:Hp; [|discriminate].
  apply zParse2_inv in Hp as (_ & _ & _ & _ & ->).
  rewrite createMessage_run. unfold getMessagesBySessionId.
  set (ins0 := mkInsert m "user" s None None).
  destruct (generateChatResponseWithHistory E _ _) as [[txt|e] w3] eqn:Hg;
    [|discriminate].
  apply chat_service_run in Hg as (cs & Hfm & Hlog).
  rewrite createMessage_run. unfold ret. intros H. inversion H; subst u a w'. clear H.
  cbn [content sessionId created MemStorage.newMessage ins0 ins_content ins_sessionId].
  fold ins0. exists cs. cbn [afterCreate apiLog] in *.
  split; [exact Hlog|].
  exact (formatMessages_images E _ _ _ cs Hfm).
Qed.

Lemma chat_history_carries_images_witness :
  let E := Scenario.platform (Scenario.replying "Hello") Scenario.tick in
  let store := [("k1", mkMessage "k1" "what is this?" "user" "s1" 5
                         (Some "package.json") (Some "image"))] in
  let w := mkWorld store Scenario.disk 1 1 0 [] in
  exists u a w',
    post_chat E (Scenario.chatBody "and now?" "s1") w = (ResPair u a, w')
    /\ apiLog w'
       = [mkRequest "gemini-2.5-flash"
            (ContentsTurns
               [mkContent "user" [TextPart "what is this?";
                                  InlineDataPart "{ }" "image/jpeg"];
                mkContent "user" [TextPart "and now?"]]) []].
Proof.
  intros E store w.
  assert (Hrun : exists u a w',
             post_chat E (Scenario.chatBody "and now?" "s1") w = (ResPair u a, w'))
    by (vm_compute; do 3 eexists; reflexivity).
  destruct Hrun as (u & a & w' & Hrun).
  destruct (chat_history_carries_images E _ _ _ _ _ Hrun) as (cs & Hlog & _).
  exists u, a, w'. split; [exact Hrun|].
  vm_compute in Hrun. inversion Hrun. reflexivity.
Defined.

(** X21. Invocations of the image-generation protocol that read different
    values from the clock write to different paths: the path is
    [uploads/generated_<reading>.jpg], a plain name under the managed
    directory, and the decimal rendering of the reading is injective. *)
Theorem generated_paths_differ (now1 now2 : Z) :
  now1 <> now2 ->
  Path.join "uploads" ("generated_" ++ string_of_Z now1 ++ ".jpg")
  = "uploads/generated_" ++ string_of_Z now1 ++ ".jpg"
  /\ Path.join "uploads" ("generated_" ++ string_of_Z now1 ++ ".jpg")
     <> Path.join "uploads" ("generated_" ++ string_of_Z now2 ++ ".jpg").
Proof.
  intros Hne.
  rewrite !(PathFacts.join_uploads_plain _ (generated_name_plain _)).
  split; [reflexivity|]. intros H.
  apply (generated_names_differ now1 now2 Hne).
  simpl in H. inversion H as [H']. simpl. now rewrite H'.
Qed.

Lemma generated_paths_differ_witness :
  Path.join "uploads" ("generated_" ++ string_of_Z 1700000000000 ++ ".jpg")
  <> Path.join "uploads" ("generated_" ++ string_of_Z 1700000000001 ++ ".jpg").
Proof.
  apply (generated_paths_differ 1700000000000 1700000000001). discriminate.
Defined.


Lemma generateImage_writes_first_image_witness :
  let E := Scenario.platform Scenario.painting Scenario.tick in
  let run := generateImage E "a red cube" "uploads/out.jpg" Scenario.start in
  fst run = Ok tt
  /\ exists data,
       data <> EmptyString
       /\ fs (snd run)
          = fs_update "/srv/app/uploads/out.jpg" (File data) Scenario.disk.
Proof.
  intros E run.
  destruct (generateImage_writes_first_image E "a red cube" "uploads/out.jpg"
              Scenario.start) as (_ & _ & Hok).
  split; [reflexivity|].
  destruct (Hok eq_refl)
    as (resp & first & rest & pre & part & post & data & _ & _ & _ & _ & _ & Hne & Hfs).
  exists (base64Decode E data). split; [exact Hne|exact Hfs].
Defined.

(** ** Failures of the two image protocols *)

(** X22. Partial failure of the image protocols. When POST
    /api/generate-image answers a body its schema accepts with status 500,
    and when POST /api/upload-image answers with status 500 at all, the id
    drawn being new to the store: the message is the fixed message of the
    failed service, the store is the old store followed by the user message
    of the invocation and nothing else, and - for generation - the disk is
    as it was, so no image file is left behind. *)
Theorem image_protocols_fail_after_user_message (E : Env) (w w' : World) (msg : string) :
  JsMap.has (randomUUID E (uuidDraws w)) (messages w) = false ->
  (forall body a s,
     body "prompt" = JString a -> body "sessionId" = JString s ->
     1 <= String.length a <= 1000 -> 1 <= String.length s ->
     post_generate_image E body w = (ResStatus 500 msg, w') ->
     let user := created E (mkInsert ("Generate an image: " ++ a) "user" s None
                              (Some "text")) w in
     msg = "Failed to generate image"
     /\ messages w' = (messages w ++ [(id user, user)])%list
     /\ fs w' = fs w)
  /\ (forall req,
        post_upload_image E req w = (ResStatus 500 msg, w') ->
        exists user,
          msg = "Failed to analyze image"
          /\ messages w' = (messages w ++ [(id user, user)])%list
          /\ role user = "user" /\ messageType user = Some "image"
          /\ up_fields req "sessionId" = Some (sessionId user)).
Proof.
  intros Hfresh. split.
  - intros body a s Ha Hs La Ls.
    unfold post_generate_image, route, try_catch, bind, imageGenerationSchema_parse.
    rewrite (zParse2_ok "prompt" 1000 body a s w Ha Hs La Ls).
    rewrite createMessage_run. unfold date_now.
    match goal with
    | |- context [generateImage E ?p ?o ?w2] =>
        pose proof (image_service_outcome E p o w2) as Hout;
        pose proof (keeps_generateImage E p o w2) as (Hm & _);
        destruct (generateImage_run E p o w2) as (_ & Hthrow & _);
        destruct (generateImage E p o w2) as [[[]|e] w3]
    end; cbn [fst snd] in *.
    + rewrite createMessage_run. discriminate.
    + destruct Hout as [Hout|Hout]; [discriminate Hout|]. inversion Hout; subst e.
      unfold ret. intros H. inversion H; subst msg w'.
      split; [reflexivity|]. split.
      * rewrite Hm. cbn [messages afterCreate]. now apply JsMapFacts.set_fresh.
      * now rewrite (Hthrow _ eq_refl).
  - intros req. unfold post_upload_image, route, bind at 1.
    pose proof (keeps_upload_single E req w) as (Hw & Hu & _).
    destruct (upload_single E req w) as [[[imagePath|]|e] w1];
      cbn [snd] in Hw, Hu; [|discriminate|discriminate].
    unfold try_catch.
    destruct (up_fields req "sessionId") as [sid|]; [|discriminate].
    destruct (sid =? EmptyString); [discriminate|].
    unfold bind. rewrite createMessage_run.
    match goal with
    | |- context [analyzeImage E ?p ?q ?w2] =>
        pose proof (analysis_service_outcome E p q w2) as Hout;
        pose proof (keeps_analyzeImage E p q w2) as (Hm & _);
        destruct (analyzeImage E p q w2) as [[txt|e] w3]
    end; cbn [fst snd] in *.
    + rewrite createMessage_run. discriminate.
    + destruct Hout as [(t & Ht & _)|Hout]; [discriminate Ht|]. inversion Hout; subst e.
      unfold ret. intros H. inversion H; subst msg w'.
      match type of Hm with
      | _ = messages (afterCreate E ?i w1) => exists (created E i w1)
      end.
      split; [reflexivity|]. split.
      * rewrite Hm. cbn [messages afterCreate]. rewrite Hw.
        rewrite <- Hu in Hfresh. exact (JsMapFacts.set_fresh _ _ _ Hfresh).
      * repeat split.
Qed.

Lemma image_protocols_fail_after_user_message_witness :
  let E := Scenario.platform Scenario.rejecting Scenario.tick in
  let out := post_generate_image E (Scenario.promptBody "a red cube" "s2") Scenario.start in
  JsMap.has (randomUUID E 0) (messages Scenario.start) = false
  /\ fst out = ResStatus 500 "Failed to generate image"
  /\ JsMap.size (messages (snd out)) = 1
  /\ fs (snd out) = Scenario.disk.
Proof.
  intros E out.
  destruct (image_protocols_fail_after_user_message E Scenario.start (snd out)
              "Failed to generate image" eq_refl) as (Hgen & _).
  destruct (Hgen (Scenario.promptBody "a red cube" "s2") "a red cube" "s2")
    as (_ & Hstore & Hfs).
  - reflexivity.
  - reflexivity.
  - simpl. lia.
  - simpl. lia.
  - reflexivity.
  - split; [reflexivity|]. split; [reflexivity|].
    split; [now rewrite Hstore|exact Hfs].
Defined.
